(** * whatsapp-ws-extension-gateway: session broker and request correlation

    A shallow embedding of the gateway's protocol codec ([src/protocol.js]),
    its session registry ([session-manager.js]) and the broker facade
    ([src/gateway.js]), followed by the properties of the specification.

    Conventions.
    - JavaScript values that reach the codec are modelled by [jsval].
    - A JavaScript [Map] that is iterated is an association list in insertion
      order; the round-robin counters, which are only read and written by
      key, are a [gmap].
    - Closures held by the registry ([resolve], [reject], timer ids) are
      names (natural numbers); calling one is recorded as an [Effect], and
      the facade interprets the effects over its promise and timer stores.
    - [Date.now()], [uuidv4()] and [Math.random()] are arguments. *)

From Stdlib Require Import ZArith Ascii.
From Stdlib Require String.
From stdpp Require Import base option list strings pretty gmap.

Local Open Scope Z_scope.
Local Open Scope nat_scope.

(* stdpp's solvers clear hypotheses that may already be gone. *)
#[local] Set Warnings "-clear-no-such-hyp".

(* ================================================================== *)
(** * JavaScript values *)
(* ================================================================== *)

Module JS.

(** The JSON-shaped part of JavaScript's value space.  Numbers are integers
    here ([NaN] and fractions do not occur in what follows). *)
#[warnings="-register-all"]
Inductive jsval : Type :=
| JUndefined
| JNull
| JBool (b : bool)
| JNum (n : Z)
| JStr (s : string)
| JObj (props : list (string * jsval)).

Inductive jstype : Type :=
| TUndefined | TObject | TBoolean | TNumber | TString.

Global Instance jstype_eq_dec : EqDecision jstype.
Proof. solve_decision. Defined.

(** [typeof v]; note [typeof null === 'object']. *)
Definition typeof (v : jsval) : jstype :=
  match v with
  | JUndefined => TUndefined
  | JNull => TObject
  | JBool _ => TBoolean
  | JNum _ => TNumber
  | JStr _ => TString
  | JObj _ => TObject
  end.

(** ToBoolean: what [!v], [v || w] and [v && w] test. *)
Definition truthy (v : jsval) : bool :=
  match v with
  | JUndefined | JNull => false
  | JBool b => b
  | JNum n => negb (n =? 0)%Z
  | JStr s => negb (bool_decide (s = EmptyString))
  | JObj _ => true
  end.

(** [v || w] *)
Definition js_or (v w : jsval) : jsval := if truthy v then v else w.

Fixpoint assoc (name : string) (props : list (string * jsval)) : jsval :=
  match props with
  | [] => JUndefined
  | (k, v) :: rest => if bool_decide (k = name) then v else assoc name rest
  end.

(** Property read [v.name] on a value already known not to be
    [null]/[undefined]; primitives have none of the properties read here. *)
Definition prop (v : jsval) (name : string) : jsval :=
  match v with
  | JObj props => assoc name props
  | _ => JUndefined
  end.

(** Strict equality with a string literal, as in [switch]/[===]. *)
Definition is_str (v : jsval) (lit : string) : bool :=
  match v with
  | JStr s => bool_decide (s = lit)
  | _ => false
  end.

(** [v === true] *)
Definition is_true_lit (v : jsval) : bool :=
  match v with
  | JBool true => true
  | _ => false
  end.

(** A call either returns or throws; the only exception raised by the
    modelled code paths is a [TypeError] from calling a missing method. *)
Inductive completion (A : Type) : Type :=
| Return (a : A)
| ThrowTypeError.
Global Arguments Return {A} a.
Global Arguments ThrowTypeError {A}.

End JS.

(* ================================================================== *)
(** * Protocol codec ([src/protocol.js]) *)
(* ================================================================== *)

Module Protocol.
Import JS.

(** ** Inbound envelopes *)

Inductive MessageData : Type :=
| AuthData (apiKey : string) (extensionVersion browser : jsval)
| StatusData (whatsappLoggedIn ready : bool)
| MessageResultData (requestId : string) (success : bool)
                    (error timestamp : jsval)
| HeartbeatData (timestamp : jsval).

(** The object [{ valid, error, data }] returned by the validators. *)
Record Validation : Type := mkValidation {
  valid : bool;
  error : option string;
  data : option MessageData
}.

Definition invalid (msg : string) : Validation :=
  {| valid := false; error := Some msg; data := None |}.
Definition valid_with (d : MessageData) : Validation :=
  {| valid := true; error := None; data := Some d |}.
(** [{ valid: true }] *)
Definition valid_ok : Validation :=
  {| valid := true; error := None; data := None |}.

(** [parseMessage]: [parsed] is the outcome of [JSON.parse(rawMessage)],
    [None] when it throws. *)
Definition parseMessage (parsed : option jsval) : option jsval :=
  match parsed with
  | None => None
  | Some message =>
      if negb (truthy message)
         || negb (bool_decide (typeof message = TObject))
         || negb (truthy (prop message "type"))
      then None
      else Some message
  end.

Definition validateAuthMessage (message : jsval) : Validation :=
  if negb (is_str (prop message "type") "auth") then
    invalid "Invalid message type"
  else if negb (truthy (prop message "apiKey"))
          || negb (bool_decide (typeof (prop message "apiKey") = TString)) then
    invalid "Missing or invalid apiKey"
  else if negb (truthy (prop message "data"))
          || negb (bool_decide (typeof (prop message "data") = TObject)) then
    invalid "Missing or invalid data object"
  else
    match prop message "apiKey" with
    | JStr k =>
        valid_with
          (AuthData k
             (js_or (prop (prop message "data") "extensionVersion") (JStr "unknown"))
             (js_or (prop (prop message "data") "browser") (JStr "unknown")))
    | _ => invalid "Missing or invalid apiKey"
    end.

Definition validateStatusMessage (message : jsval) : Validation :=
  if negb (is_str (prop message "type") "status") then
    invalid "Invalid message type"
  else if negb (truthy (prop message "data"))
          || negb (bool_decide (typeof (prop message "data") = TObject)) then
    invalid "Missing or invalid data object"
  else
    valid_with
      (StatusData
         (is_true_lit (prop (prop message "data") "whatsappLoggedIn"))
         (is_true_lit (prop (prop message "data") "ready"))).

Definition validateMessageResult (now : Z) (message : jsval) : Validation :=
  if negb (is_str (prop message "type") "message-result") then
    invalid "Invalid message type"
  else if negb (truthy (prop message "requestId"))
          || negb (bool_decide (typeof (prop message "requestId") = TString)) then
    invalid "Missing or invalid requestId"
  else
    match prop message "requestId", prop message "success" with
    | JStr rid, JBool ok =>
        valid_with
          (MessageResultData rid ok
             (js_or (prop message "error") JNull)
             (js_or (prop message "timestamp") (JNum now)))
    | JStr _, _ => invalid "Missing or invalid success field"
    | _, _ => invalid "Missing or invalid requestId"
    end.

Definition validateHeartbeatMessage (now : Z) (message : jsval) : Validation :=
  if negb (is_str (prop message "type") "heartbeat") then
    invalid "Invalid message type"
  else
    valid_with (HeartbeatData (js_or (prop message "timestamp") (JNum now))).

(** The object [{ type, valid, error, data }] of [handleExtensionMessage]. *)
Record HandlerResult : Type := mkHandlerResult {
  type : string;
  result : Validation
}.

Definition handleExtensionMessage (now : Z) (message : jsval) : HandlerResult :=
  let type := prop message "type" in
  if is_str type "auth" then
    {| type := "auth"; result := validateAuthMessage message |}
  else if is_str type "status" then
    {| type := "status"; result := validateStatusMessage message |}
  else if is_str type "message-result" then
    {| type := "message-result"; result := validateMessageResult now message |}
  else if is_str type "heartbeat" then
    {| type := "heartbeat"; result := validateHeartbeatMessage now message |}
  else
    {| type := "unknown"; result := invalid "Unknown message type" |}.

(** ** Outbound commands (the objects handed to [JSON.stringify]) *)

Inductive Command : Type :=
| SendMessage (requestId : string) (phoneNumber message : jsval)
| SendImage (requestId : string) (phoneNumber imageDataUrl caption : jsval)
| SendVideo (requestId : string) (phoneNumber videoDataUrl caption : jsval)
| SendDocument (requestId : string)
               (phoneNumber documentDataUrl documentName caption : jsval)
| Ping.

Definition createSendMessageCommand (requestId : string) (data : jsval)
    : Command :=
  SendMessage requestId (prop data "phoneNumber") (prop data "message").

Definition createSendImageCommand (requestId : string) (data : jsval)
    : Command :=
  SendImage requestId (prop data "phoneNumber") (prop data "imageDataUrl")
            (js_or (prop data "caption") (JStr EmptyString)).

Definition createSendVideoCommand (requestId : string) (data : jsval)
    : Command :=
  SendVideo requestId (prop data "phoneNumber") (prop data "videoDataUrl")
            (js_or (prop data "caption") (JStr EmptyString)).

Definition createSendDocumentCommand (requestId : string) (data : jsval)
    : Command :=
  SendDocument requestId (prop data "phoneNumber")
               (prop data "documentDataUrl") (prop data "documentName")
               (js_or (prop data "caption") (JStr EmptyString)).

Definition createPingCommand : Command := Ping.

(** ** Phone numbers *)

(** [\d] *)
Definition is_digit (c : ascii) : bool :=
  match Ascii.is_nat c with Some _ => true | None => false end.

(** [[1-9]] *)
Definition is_digit_1_9 (c : ascii) : bool :=
  match Ascii.is_nat c with Some (S _) => true | _ => false end.

(** [/^\+[1-9]\d{1,14}$/.test(s)]: a plus sign, one digit 1-9, then between
    one and fourteen further digits, and nothing else. *)
Definition phoneRegex_test (s : string) : bool :=
  match s with
  | String c (String d rest) =>
      bool_decide (c = "+"%char)
      && is_digit_1_9 d
      && forallb is_digit (String.list_ascii_of_string rest)
      && bool_decide (1 ≤ String.length rest ≤ 14)
  | _ => false
  end.

Definition isValidPhoneNumber (phoneNumber : jsval) : bool :=
  if negb (truthy phoneNumber)
     || negb (bool_decide (typeof phoneNumber = TString))
  then false
  else match phoneNumber with
       | JStr s => phoneRegex_test s
       | _ => false
       end.

(** ** Send-operation validators *)

(** White space removed by [String.prototype.trim] among the one-byte
    characters. *)
Definition is_js_space (c : ascii) : bool :=
  Ascii.is_space c || bool_decide (c = "160"%char).

(** [s.trim().length === 0] *)
Definition trim_is_empty (s : string) : bool :=
  forallb is_js_space (String.list_ascii_of_string s).

(** [v.startsWith(lit)] for an arbitrary receiver: only strings have the
    method. *)
Definition startsWith (v : jsval) (lit : string) : completion bool :=
  match v with
  | JStr s => Return (String.prefix lit s)
  | _ => ThrowTypeError
  end.

Definition validateSendMessageData (data : jsval) : Validation :=
  if negb (truthy data) || negb (bool_decide (typeof data = TObject)) then
    invalid "Invalid data object"
  else if negb (isValidPhoneNumber (prop data "phoneNumber")) then
    invalid "Invalid phone number format. Use international format: +1234567890"
  else
    match prop data "message" with
    | JStr m =>
        if negb (truthy (JStr m)) || trim_is_empty m
        then invalid "Message cannot be empty"
        else valid_ok
    | _ => invalid "Message cannot be empty"
    end.

Definition validateSendImageData (data : jsval) : completion Validation :=
  if negb (truthy data) || negb (bool_decide (typeof data = TObject)) then
    Return (invalid "Invalid data object")
  else if negb (isValidPhoneNumber (prop data "phoneNumber")) then
    Return (invalid "Invalid phone number format. Use international format: +1234567890")
  else if negb (truthy (prop data "imageUrl"))
          && negb (truthy (prop data "imageDataUrl")) then
    Return (invalid "Either imageUrl or imageDataUrl is required")
  else if truthy (prop data "imageDataUrl") then
    match startsWith (prop data "imageDataUrl") "data:image/" with
    | ThrowTypeError => ThrowTypeError
    | Return false =>
        Return (invalid "Invalid imageDataUrl format. Must start with data:image/")
    | Return true => Return valid_ok
    end
  else Return valid_ok.

Definition validateSendVideoData (data : jsval) : completion Validation :=
  if negb (truthy data) || negb (bool_decide (typeof data = TObject)) then
    Return (invalid "Invalid data object")
  else if negb (isValidPhoneNumber (prop data "phoneNumber")) then
    Return (invalid "Invalid phone number format. Use international format: +1234567890")
  else if negb (truthy (prop data "videoUrl"))
          && negb (truthy (prop data "videoDataUrl")) then
    Return (invalid "Either videoUrl or videoDataUrl is required")
  else if truthy (prop data "videoDataUrl") then
    match startsWith (prop data "videoDataUrl") "data:video/" with
    | ThrowTypeError => ThrowTypeError
    | Return false =>
        Return (invalid "Invalid videoDataUrl format. Must start with data:video/")
    | Return true => Return valid_ok
    end
  else Return valid_ok.

Definition validateSendDocumentData (data : jsval) : completion Validation :=
  if negb (truthy data) || negb (bool_decide (typeof data = TObject)) then
    Return (invalid "Invalid data object")
  else if negb (isValidPhoneNumber (prop data "phoneNumber")) then
    Return (invalid "Invalid phone number format. Use international format: +1234567890")
  else if negb (truthy (prop data "documentUrl"))
          && negb (truthy (prop data "documentDataUrl")) then
    Return (invalid "Either documentUrl or documentDataUrl is required")
  else if negb (truthy (prop data "documentName"))
          || negb (bool_decide (typeof (prop data "documentName") = TString)) then
    Return (invalid "documentName is required")
  else Return valid_ok.

End Protocol.

(* ================================================================== *)
(** * Shared helpers ([src/utils.js]) *)
(* ================================================================== *)

Module Utils.
Import JS.

(** An [Error] object: [code] and [details] exist only on errors built by
    [formatError]; a plain [new Error(message)] has neither. *)
Record Error : Type := mkError {
  code : option string;
  message : string;
  details : jsval
}.

(** [new Error(message)] *)
Definition newError (message : string) : Error :=
  {| code := None; message := message; details := JUndefined |}.

(** [formatError(code, message, details = null)] *)
Definition formatError (code message : string) (details : jsval) : Error :=
  {| code := Some code; message := message; details := details |}.

Definition sanitizeApiKey (apiKey : string) : string :=
  if bool_decide (apiKey = EmptyString) || bool_decide (String.length apiKey < 8)
  then "***"
  else String.substring 0 8 apiKey +:+ "***".

End Utils.

(* ================================================================== *)
(** * JavaScript [Map] with string keys, in insertion order *)
(* ================================================================== *)

Module InsertionMap.
Section Ops.
Context {V : Type}.
Implicit Types (m : list (string * V)) (k : string).

Fixpoint get k m : option V :=
  match m with
  | [] => None
  | (k', v) :: rest => if bool_decide (k' = k) then Some v else get k rest
  end.

Definition has k m : bool := bool_decide (is_Some (get k m)).

(** [m.set(k, v)]: an existing key keeps its position. *)
Fixpoint set k (v : V) m : list (string * V) :=
  match m with
  | [] => [(k, v)]
  | (k', v') :: rest =>
      if bool_decide (k' = k) then (k, v) :: rest
      else (k', v') :: set k v rest
  end.

(** [m.delete(k)] *)
Definition delete k m : list (string * V) :=
  filter (λ e, e.1 ≠ k) m.

(** In-place mutation of the object stored under [k]. *)
Fixpoint update k (f : V → V) m : list (string * V) :=
  match m with
  | [] => []
  | (k', v) :: rest =>
      if bool_decide (k' = k) then (k', f v) :: rest
      else (k', v) :: update k f rest
  end.
End Ops.
End InsertionMap.

(* ================================================================== *)
(** * Session registry ([class SessionManager]) *)
(* ================================================================== *)

Module SessionManager.
Import JS Utils.

Record Config : Type := mkConfig {
  heartbeatInterval : Z;
  maxSessionsPerKey : nat;
  heartbeatTimeout : Z;
  deviceSelectionStrategy : string
}.

(** The constructor's argument: every option may be left out. *)
Record ConfigInput : Type := mkConfigInput {
  in_heartbeatInterval : option Z;
  in_maxSessionsPerKey : option nat;
  in_heartbeatTimeout : option Z;
  in_deviceSelectionStrategy : option string
}.

(** [{ heartbeatInterval: config.heartbeatInterval || 30000, ..., ...config }]:
    the spread writes every key the caller supplied over the default. *)
Definition makeConfig (config : ConfigInput) : Config :=
  {| heartbeatInterval := default 30000%Z (in_heartbeatInterval config);
     maxSessionsPerKey := default 10 (in_maxSessionsPerKey config);
     heartbeatTimeout := default 60000%Z (in_heartbeatTimeout config);
     deviceSelectionStrategy :=
       default "round-robin" (in_deviceSelectionStrategy config) |}.

(** One in-flight command: [{ resolve, reject, timeoutId, createdAt, type }].
    [resolve] and [reject] name the promise whose settling functions they
    are. *)
Record PendingRequest : Type := mkPendingRequest {
  resolve : nat;
  reject : nat;
  timeoutId : nat;
  createdAt : Z;
  type : string
}.

Record Session : Type := mkSession {
  sessionId : string;
  apiKey : string;
  ws : nat;
  ip : jsval;
  deviceActive : bool;
  connectedAt : Z;
  lastHeartbeat : Z;
  extensionVersion : jsval;
  browser : jsval;
  pendingRequests : list (string * PendingRequest)
}.

Definition set_deviceActive (b : bool) (s : Session) : Session :=
  mkSession (sessionId s) (apiKey s) (ws s) (ip s) b (connectedAt s)
            (lastHeartbeat s) (extensionVersion s) (browser s)
            (pendingRequests s).

Definition set_lastHeartbeat (t : Z) (s : Session) : Session :=
  mkSession (sessionId s) (apiKey s) (ws s) (ip s) (deviceActive s)
            (connectedAt s) t (extensionVersion s) (browser s)
            (pendingRequests s).

Definition set_pendingRequests (p : list (string * PendingRequest))
    (s : Session) : Session :=
  mkSession (sessionId s) (apiKey s) (ws s) (ip s) (deviceActive s)
            (connectedAt s) (lastHeartbeat s) (extensionVersion s)
            (browser s) p.

Record Metadata : Type := mkMetadata {
  md_ip : jsval;
  md_extensionVersion : jsval;
  md_browser : jsval
}.

(** The registry object. *)
Record t : Type := mkSessionManager {
  config : Config;
  sessions : list (string * list Session);
  roundRobinCounters : gmap string nat;
  heartbeatMonitor : bool
}.

Definition set_sessions (ss : list (string * list Session)) (sm : t) : t :=
  mkSessionManager (config sm) ss (roundRobinCounters sm) (heartbeatMonitor sm).

Definition set_roundRobinCounters (c : gmap string nat) (sm : t) : t :=
  mkSessionManager (config sm) (sessions sm) c (heartbeatMonitor sm).

Definition set_heartbeatMonitor (b : bool) (sm : t) : t :=
  mkSessionManager (config sm) (sessions sm) (roundRobinCounters sm) b.

(** [new SessionManager(config)] *)
Definition new (config : ConfigInput) : t :=
  {| config := makeConfig config;
     sessions := [];
     roundRobinCounters := ∅;
     heartbeatMonitor := false |}.

(** What the registry does to the outside: calls of the closures stored in
    a pending request, of [clearTimeout], and of the stale-session hook. *)
Inductive Effect : Type :=
| ClearTimeout (timeoutId : nat)
| Resolve (promise : nat) (value : option Protocol.MessageData)
| Reject (promise : nat) (err : Error)
| OnStaleSession (session : Session).

Definition CONNECTION_LOST : Error :=
  newError "CONNECTION_LOST: WebSocket connection lost".
Definition GATEWAY_SHUTDOWN : Error :=
  newError "GATEWAY_SHUTDOWN: Gateway is shutting down".
Definition MAX_SESSIONS_EXCEEDED (max : nat) : Error :=
  newError ("MAX_SESSIONS_EXCEEDED: Maximum " +:+ pretty max
            +:+ " sessions allowed per API key").

(** [sessions.find(s => s.sessionId === sessionId)] with its index. *)
Definition findSession (sid : string) (ss : list Session)
    : option (nat * Session) :=
  list_find (λ s, sessionId s = sid) ss.

Definition getSessions (sm : t) (apiKey : string) : list Session :=
  default [] (InsertionMap.get apiKey (sessions sm)).

Definition addSession (sm : t) (uuid : string) (now : Z)
    (apiKey : string) (ws : nat) (metadata : Metadata)
    : Error + (Session * t) :=
  let existingSessions := getSessions sm apiKey in
  if bool_decide (maxSessionsPerKey (config sm) ≤ length existingSessions)
  then inl (MAX_SESSIONS_EXCEEDED (maxSessionsPerKey (config sm)))
  else
    let session :=
      {| sessionId := uuid;
         apiKey := apiKey;
         ws := ws;
         ip := js_or (md_ip metadata) (JStr "unknown");
         deviceActive := false;
         connectedAt := now;
         lastHeartbeat := now;
         extensionVersion := md_extensionVersion metadata;
         browser := md_browser metadata;
         pendingRequests := [] |} in
    let sessions1 :=
      if InsertionMap.has apiKey (sessions sm) then sessions sm
      else InsertionMap.set apiKey [] (sessions sm) in
    let sessions2 :=
      InsertionMap.update apiKey (λ bucket, bucket ++ [session]) sessions1 in
    inr (session, set_sessions sessions2 sm).

(** The loop of [removeSession] up to the first hit: the key and the array
    of the first bucket holding the id, the index inside it, and the
    session. *)
Fixpoint locate (sid : string) (entries : list (string * list Session))
    : option (string * list Session * nat * Session) :=
  match entries with
  | [] => None
  | (apiKey, ss) :: rest =>
      match findSession sid ss with
      | Some (index, session) => Some (apiKey, ss, index, session)
      | None => locate sid rest
      end
  end.

(** [sessions.splice(index, 1)] on the array found by [locate]. *)
Fixpoint splice (sid : string) (entries : list (string * list Session))
    : list (string * list Session) :=
  match entries with
  | [] => []
  | (apiKey, ss) :: rest =>
      match findSession sid ss with
      | Some (index, _) => (apiKey, base.delete index ss) :: rest
      | None => (apiKey, ss) :: splice sid rest
      end
  end.

(** The rejection loop over [session.pendingRequests.entries()]. *)
Definition rejectAll (err : Error) (pending : list (string * PendingRequest))
    : list Effect :=
  flat_map (λ e, [ClearTimeout (timeoutId e.2); Reject (reject e.2) err])
           pending.

Definition removeSession (sm : t) (sid : string) : bool * t * list Effect :=
  match locate sid (sessions sm) with
  | Some (apiKey, bucket, index, session) =>
      let effects := rejectAll CONNECTION_LOST (pendingRequests session) in
      let spliced := splice sid (sessions sm) in
      if bool_decide (length (base.delete index bucket) = 0)
      then
        (true,
         set_roundRobinCounters (base.delete apiKey (roundRobinCounters sm))
           (set_sessions (InsertionMap.delete apiKey spliced) sm),
         effects)
      else (true, set_sessions spliced sm, effects)
  | None => (false, sm, [])
  end.

Fixpoint getSession_in (sid : string) (entries : list (string * list Session))
    : option Session :=
  match entries with
  | [] => None
  | (_, ss) :: rest =>
      match findSession sid ss with
      | Some (_, session) => Some session
      | None => getSession_in sid rest
      end
  end.

Definition getSession (sm : t) (sid : string) : option Session :=
  getSession_in sid (sessions sm).

Definition getActiveSessions (sm : t) (apiKey : string) : list Session :=
  filter (λ s, deviceActive s = true) (getSessions sm apiKey).

(** [random] stands for [Math.floor(Math.random() * activeSessions.length)]. *)
Definition getSessionForSending (sm : t) (apiKey : string) (random : nat)
    : option Session * t :=
  let activeSessions := getActiveSessions sm apiKey in
  if bool_decide (length activeSessions = 0) then (None, sm)
  else if bool_decide (length activeSessions = 1) then (activeSessions !! 0, sm)
  else if bool_decide (deviceSelectionStrategy (config sm) = "random") then
    (activeSessions !! random, sm)
  else
    let counter := default 0 (roundRobinCounters sm !! apiKey) in
    let session := activeSessions !! (counter mod length activeSessions) in
    (session,
     set_roundRobinCounters (<[apiKey := counter + 1]> (roundRobinCounters sm)) sm).

(** In-place mutation of the session object that [getSession] returns. *)
Fixpoint mutate (sid : string) (f : Session → Session)
    (entries : list (string * list Session)) : list (string * list Session) :=
  match entries with
  | [] => []
  | (apiKey, ss) :: rest =>
      match findSession sid ss with
      | Some (index, _) => (apiKey, alter f index ss) :: rest
      | None => (apiKey, ss) :: mutate sid f rest
      end
  end.

Definition mutateSession (sm : t) (sid : string) (f : Session → Session) : t :=
  set_sessions (mutate sid f (sessions sm)) sm.

Definition updateSessionStatus (sm : t) (sid : string)
    (whatsappLoggedIn ready : bool) : t :=
  match getSession sm sid with
  | Some _ => mutateSession sm sid (set_deviceActive (whatsappLoggedIn && ready))
  | None => sm
  end.

Definition updateHeartbeat (sm : t) (sid : string) (now : Z) : t :=
  match getSession sm sid with
  | Some _ => mutateSession sm sid (set_lastHeartbeat now)
  | None => sm
  end.

Definition addPendingRequest (sm : t) (sid requestId : string)
    (pendingRequest : PendingRequest) : t :=
  match getSession sm sid with
  | Some _ =>
      mutateSession sm sid
        (λ s, set_pendingRequests
                (InsertionMap.set requestId pendingRequest (pendingRequests s)) s)
  | None => sm
  end.

Definition resolvePendingRequest (sm : t) (sid requestId : string)
    (result : option Protocol.MessageData) : bool * t * list Effect :=
  match getSession sm sid with
  | Some session =>
      match InsertionMap.get requestId (pendingRequests session) with
      | Some pendingRequest =>
          (true,
           mutateSession sm sid
             (λ s, set_pendingRequests
                     (InsertionMap.delete requestId (pendingRequests s)) s),
           [ClearTimeout (timeoutId pendingRequest);
            Resolve (resolve pendingRequest) result])
      | None => (false, sm, [])
      end
  | None => (false, sm, [])
  end.

Definition getTotalSessionCount (sm : t) : nat :=
  foldl (λ count e, count + length e.2) 0 (sessions sm).

Definition getAllApiKeys (sm : t) : list string := (sessions sm).*1.

(** ** The liveness sweep: the callback armed by [startHeartbeatMonitor] *)

Definition isStale (sm : t) (now : Z) (s : Session) : bool :=
  bool_decide (heartbeatTimeout (config sm) < now - lastHeartbeat s)%Z.

(** First loop: collect the ids of the stale sessions. *)
Definition staleSessionIds (sm : t) (now : Z) : list string :=
  flat_map (λ e, sessionId <$> filter (λ s, isStale sm now s = true) e.2)
           (sessions sm).

(** One iteration of the second loop; [hook] tells whether an
    [onStaleSession] callback was supplied. *)
Definition evict (hook : bool) (acc : t * list Effect) (sid : string)
    : t * list Effect :=
  let called :=
    match getSession acc.1 sid with
    | Some session => if hook then [OnStaleSession session] else []
    | None => []
    end in
  let '(_, sm', effects) := removeSession acc.1 sid in
  (sm', acc.2 ++ called ++ effects).

Definition heartbeatTick (hook : bool) (sm : t) (now : Z) : t * list Effect :=
  foldl (evict hook) (sm, []) (staleSessionIds sm now).

Definition startHeartbeatMonitor (sm : t) : t :=
  if heartbeatMonitor sm then sm else set_heartbeatMonitor true sm.

Definition stopHeartbeatMonitor (sm : t) : t :=
  if heartbeatMonitor sm then set_heartbeatMonitor false sm else sm.

Definition cleanup (sm : t) : t * list Effect :=
  let sm' := stopHeartbeatMonitor sm in
  (set_roundRobinCounters ∅ (set_sessions [] sm'),
   flat_map
     (λ e, flat_map (λ s, rejectAll GATEWAY_SHUTDOWN (pendingRequests s)) e.2)
     (sessions sm')).

(** The snapshot entries of [getSessionInfo]. *)
Record SessionInfo : Type := mkSessionInfo {
  info_sessionId : string;
  info_deviceActive : bool;
  info_connectedAt : Z;
  info_lastHeartbeat : Z;
  info_extensionVersion : jsval;
  info_browser : jsval
}.

Definition sessionInfo (session : Session) : SessionInfo :=
  {| info_sessionId := sessionId session;
     info_deviceActive := deviceActive session;
     info_connectedAt := connectedAt session;
     info_lastHeartbeat := lastHeartbeat session;
     info_extensionVersion := extensionVersion session;
     info_browser := browser session |}.

Definition getSessionInfo (sm : t) (apiKey : string) : list SessionInfo :=
  sessionInfo <$> getSessions sm apiKey.

End SessionManager.

(* ================================================================== *)
(** * Broker facade ([class WhatsAppGateway]) *)
(* ================================================================== *)

Module Gateway.
Import JS Utils.

(** What a socket was asked to transmit. *)
Inductive Frame : Type :=
| CommandFrame (command : Protocol.Command)
| ErrorFrame (code message : string)
| AuthSuccessFrame (sessionId : string).

(** [ws._tempData] *)
Record TempData : Type := mkTempData {
  td_ip : jsval;
  authenticated : bool;
  td_sessionId : option string
}.

(** A [ws] object: [readyState] is 1 when open; [sent] collects the
    arguments of [ws.send], [closeCalls] those of [ws.close]. *)
Record WebSocket : Type := mkWebSocket {
  readyState : nat;
  _tempData : TempData;
  _pingInterval : bool;
  sent : list Frame;
  closeCalls : list (nat * string)
}.

Inductive PromiseState : Type :=
| Pending
| Fulfilled (value : option Protocol.MessageData)
| Rejected (err : Error).

(** The variables captured by the [setTimeout] callback of a send. *)
Record Timer : Type := mkTimer {
  timer_sessionId : string;
  timer_requestId : string;
  timer_promise : nat
}.

(** The argument of [config.onMessageLog]. *)
Record LogEntry : Type := mkLogEntry {
  log_apiKey : string;
  log_sessionId : string;
  log_status : string;
  log_timestamp : jsval;
  log_requestId : string;
  log_error : jsval
}.

Record Config : Type := mkConfig {
  heartbeatInterval : Z;
  requestTimeout : Z;
  maxSessionsPerKey : nat;
  deviceSelectionStrategy : string
}.

Record ConfigInput : Type := mkConfigInput {
  in_heartbeatInterval : option Z;
  in_requestTimeout : option Z;
  in_maxSessionsPerKey : option nat;
  in_deviceSelectionStrategy : option string
}.

(** [config.x || d] on an optional number or string. *)
Definition orZ (v : option Z) (d : Z) : Z :=
  match v with Some n => if (n =? 0)%Z then d else n | None => d end.
Definition orNat (v : option nat) (d : nat) : nat :=
  match v with Some 0 | None => d | Some n => n end.
Definition orStr (v : option string) (d : string) : string :=
  match v with Some s => if bool_decide (s = EmptyString) then d else s | None => d end.

Definition makeConfig (config : ConfigInput) : Config :=
  {| heartbeatInterval := orZ (in_heartbeatInterval config) 30000;
     requestTimeout := orZ (in_requestTimeout config) 30000;
     maxSessionsPerKey := orNat (in_maxSessionsPerKey config) 10;
     deviceSelectionStrategy :=
       orStr (in_deviceSelectionStrategy config) "round-robin" |}.

(** The gateway together with the objects it shares with the runtime:
    sockets, promises handed to callers, and armed one-shot timers. *)
Record t : Type := mkGateway {
  config : Config;
  sessionManager : SessionManager.t;
  isRunning : bool;
  sockets : gmap nat WebSocket;
  promises : gmap nat PromiseState;
  timers : gmap nat Timer;
  nextPromise : nat;
  nextTimer : nat;
  messageLog : list LogEntry
}.

Definition new (config : ConfigInput) : t :=
  let c := makeConfig config in
  {| config := c;
     sessionManager :=
       SessionManager.new
         {| SessionManager.in_heartbeatInterval := Some (heartbeatInterval c);
            SessionManager.in_maxSessionsPerKey := Some (maxSessionsPerKey c);
            SessionManager.in_heartbeatTimeout := None;
            SessionManager.in_deviceSelectionStrategy :=
              Some (deviceSelectionStrategy c) |};
     isRunning := false;
     sockets := ∅; promises := ∅; timers := ∅;
     nextPromise := 0; nextTimer := 0;
     messageLog := [] |}.

(** ** The state monad the handlers run in *)

Definition M (A : Type) : Type := t → A * t.

Global Instance M_ret : MRet M := λ A a g, (a, g).
Global Instance M_bind : MBind M := λ A B k m g, let '(a, g') := m g in k a g'.

Definition gets {A} (f : t → A) : M A := λ g, (f g, g).
Definition modify (f : t → t) : M unit := λ g, ((), f g).

Definition set_sessionManager (sm : SessionManager.t) (g : t) : t :=
  mkGateway (config g) sm (isRunning g) (sockets g) (promises g) (timers g)
            (nextPromise g) (nextTimer g) (messageLog g).
Definition set_sockets (s : gmap nat WebSocket) (g : t) : t :=
  mkGateway (config g) (sessionManager g) (isRunning g) s (promises g)
            (timers g) (nextPromise g) (nextTimer g) (messageLog g).
Definition set_promises (p : gmap nat PromiseState) (g : t) : t :=
  mkGateway (config g) (sessionManager g) (isRunning g) (sockets g) p
            (timers g) (nextPromise g) (nextTimer g) (messageLog g).
Definition set_timers (tm : gmap nat Timer) (g : t) : t :=
  mkGateway (config g) (sessionManager g) (isRunning g) (sockets g)
            (promises g) tm (nextPromise g) (nextTimer g) (messageLog g).
Definition set_nextPromise (n : nat) (g : t) : t :=
  mkGateway (config g) (sessionManager g) (isRunning g) (sockets g)
            (promises g) (timers g) n (nextTimer g) (messageLog g).
Definition set_nextTimer (n : nat) (g : t) : t :=
  mkGateway (config g) (sessionManager g) (isRunning g) (sockets g)
            (promises g) (timers g) (nextPromise g) n (messageLog g).
Definition set_messageLog (l : list LogEntry) (g : t) : t :=
  mkGateway (config g) (sessionManager g) (isRunning g) (sockets g)
            (promises g) (timers g) (nextPromise g) (nextTimer g) l.

(** ** Sockets, promises and timers *)

Definition isOpen (ws : nat) : M bool :=
  gets (λ g, match sockets g !! ws with
             | Some s => bool_decide (readyState s = 1)
             | None => false
             end).

(** [ws.send(frame)] *)
Definition wsSend (ws : nat) (frame : Frame) : M unit :=
  modify (λ g, set_sockets
    (alter (λ s, mkWebSocket (readyState s) (_tempData s) (_pingInterval s)
                             (sent s ++ [frame]) (closeCalls s))
           ws (sockets g)) g).

(** [ws.close(code, reason)]: the socket starts closing (state 2); its
    [close] event is delivered later. *)
Definition wsClose (ws : nat) (code : nat) (reason : string) : M unit :=
  modify (λ g, set_sockets
    (alter (λ s, mkWebSocket 2 (_tempData s) (_pingInterval s) (sent s)
                             (closeCalls s ++ [(code, reason)]))
           ws (sockets g)) g).

Definition tempData (ws : nat) : M (option TempData) :=
  gets (λ g, _tempData <$> sockets g !! ws).

Definition set_tempData (ws : nat) (td : TempData) : M unit :=
  modify (λ g, set_sockets
    (alter (λ s, mkWebSocket (readyState s) td (_pingInterval s) (sent s)
                             (closeCalls s))
           ws (sockets g)) g).

(** Calling a promise's [resolve]/[reject]: only a pending promise
    changes. *)
Definition settle (p : nat) (st : PromiseState) : M unit :=
  modify (λ g, match promises g !! p with
               | Some Pending => set_promises (<[p := st]> (promises g)) g
               | _ => g
               end).

(** [new Promise(...)] whose executor has not settled it yet. *)
Definition newPromise : M nat :=
  λ g, (nextPromise g,
        set_nextPromise (S (nextPromise g))
          (set_promises (<[nextPromise g := Pending]> (promises g)) g)).

(** The rejected promise an [async] function returns when its body
    throws. *)
Definition throwAsync (err : Error) : M nat :=
  p ← newPromise; _ ← settle p (Rejected err); mret p.

Definition setTimeout (callback : Timer) : M nat :=
  λ g, (nextTimer g,
        set_nextTimer (S (nextTimer g))
          (set_timers (<[nextTimer g := callback]> (timers g)) g)).

Definition clearTimeout (timeoutId : nat) : M unit :=
  modify (λ g, set_timers (base.delete timeoutId (timers g)) g).

(** The hook [start] hands to [startHeartbeatMonitor]. *)
Definition onStaleSession (staleSession : SessionManager.Session) : M unit :=
  open ← isOpen (SessionManager.ws staleSession);
  if (open : bool) then wsClose (SessionManager.ws staleSession) 1000 "Heartbeat timeout"
  else mret ().

(** Carrying out what a registry call did to the outside. *)
Definition perform (e : SessionManager.Effect) : M unit :=
  match e with
  | SessionManager.ClearTimeout timeoutId => clearTimeout timeoutId
  | SessionManager.Resolve p value => settle p (Fulfilled value)
  | SessionManager.Reject p err => settle p (Rejected err)
  | SessionManager.OnStaleSession s => onStaleSession s
  end.

Fixpoint performAll (es : list SessionManager.Effect) : M unit :=
  match es with
  | [] => mret ()
  | e :: rest => _ ← perform e; performAll rest
  end.

(** ** Calls into the registry *)

Definition removeSession (sid : string) : M bool :=
  sm ← gets sessionManager;
  let '(found, sm', effects) := SessionManager.removeSession sm sid in
  _ ← modify (set_sessionManager sm');
  _ ← performAll effects;
  mret found.

Definition resolvePendingRequest (sid requestId : string)
    (result : option Protocol.MessageData) : M bool :=
  sm ← gets sessionManager;
  let '(found, sm', effects) :=
    SessionManager.resolvePendingRequest sm sid requestId result in
  _ ← modify (set_sessionManager sm');
  _ ← performAll effects;
  mret found.

Definition getSessionForSending (apiKey : string) (random : nat)
    : M (option SessionManager.Session) :=
  sm ← gets sessionManager;
  let '(session, sm') := SessionManager.getSessionForSending sm apiKey random in
  _ ← modify (set_sessionManager sm');
  mret session.

(** The sweep armed by [start]. *)
Definition heartbeatTick (now : Z) : M unit :=
  sm ← gets sessionManager;
  let '(sm', effects) := SessionManager.heartbeatTick true sm now in
  _ ← modify (set_sessionManager sm');
  performAll effects.

(** ** Inbound dispatch *)

(** [_handleConnection(ws, request)]: [ws] is the fresh, open socket and
    [ip] what [getClientIp(request)] returned. *)
Definition _handleConnection (ws : nat) (ip : jsval) : M unit :=
  modify (λ g, set_sockets
    (<[ws := {| readyState := 1;
                _tempData := {| td_ip := ip; authenticated := false;
                                td_sessionId := None |};
                _pingInterval := true;
                sent := [];
                closeCalls := [] |}]> (sockets g)) g).

Definition _sendError (ws : nat) (code message : string) : M unit :=
  open ← isOpen ws;
  if (open : bool) then wsSend ws (ErrorFrame code message) else mret ().

(** [validationResult] is what the caller's [validateApiKey] answered:
    [true] for a truthy result with a truthy [valid]. *)
Definition _handleAuthMessage (ws : nat) (data : Protocol.MessageData)
    (validationResult : bool) (uuid : string) (now : Z) : M unit :=
  match data with
  | Protocol.AuthData apiKey extensionVersion browser =>
      if negb validationResult then
        _ ← _sendError ws "AUTHENTICATION_FAILED" "Invalid API key";
        wsClose ws 1008 "Authentication failed"
      else
        td ← tempData ws;
        sm ← gets sessionManager;
        match SessionManager.addSession sm uuid now apiKey ws
                {| SessionManager.md_ip := from_option td_ip JUndefined td;
                   SessionManager.md_extensionVersion := extensionVersion;
                   SessionManager.md_browser := browser |} with
        | inr (session, sm') =>
            _ ← modify (set_sessionManager sm');
            _ ← set_tempData ws
                  {| td_ip := from_option td_ip JUndefined td;
                     authenticated := true;
                     td_sessionId := Some (SessionManager.sessionId session) |};
            wsSend ws (AuthSuccessFrame (SessionManager.sessionId session))
        | inl error =>
            _ ← _sendError ws "MAX_SESSIONS_EXCEEDED" (message error);
            wsClose ws 1008 "Max sessions exceeded"
        end
  | _ => mret ()
  end.

Definition _handleStatusMessage (ws : nat) (data : Protocol.MessageData)
    : M unit :=
  td ← tempData ws;
  match (td : option TempData) with
  | None => mret ()
  | Some td =>
      if negb (authenticated td) then
        _sendError ws "NOT_AUTHENTICATED" "Not authenticated"
      else
        match data, td_sessionId td with
        | Protocol.StatusData whatsappLoggedIn ready, Some sid =>
            modify (λ g, set_sessionManager
              (SessionManager.updateSessionStatus (sessionManager g) sid
                 whatsappLoggedIn ready) g)
        | _, _ => mret ()
        end
  end.

Definition _handleMessageResult (ws : nat) (data : Protocol.MessageData)
    : M unit :=
  td ← tempData ws;
  match (td : option TempData) with
  | None => mret ()
  | Some td =>
      if negb (authenticated td) then mret ()
      else
        match data, td_sessionId td with
        | Protocol.MessageResultData requestId success error timestamp,
          Some sid =>
            resolved ← resolvePendingRequest sid requestId (Some data);
            if (resolved : bool) then
              session ← gets (λ g, SessionManager.getSession (sessionManager g) sid);
              match (session : option SessionManager.Session) with
              | Some session =>
                  modify (λ g, set_messageLog
                    (messageLog g ++
                     [{| log_apiKey := SessionManager.apiKey session;
                         log_sessionId := SessionManager.sessionId session;
                         log_status := if success then "success" else "failure";
                         log_timestamp := timestamp;
                         log_requestId := requestId;
                         log_error := error |}]) g)
              | None => mret ()
              end
            else mret ()
        | _, _ => mret ()
        end
  end.

Definition _handleHeartbeat (ws : nat) (data : Protocol.MessageData)
    (now : Z) : M unit :=
  td ← tempData ws;
  match (td : option TempData) with
  | None => mret ()
  | Some td =>
      if negb (authenticated td) then mret ()
      else
        match td_sessionId td with
        | Some sid =>
            modify (λ g, set_sessionManager
              (SessionManager.updateHeartbeat (sessionManager g) sid now) g)
        | None => mret ()
        end
  end.

(** [parsed] is the outcome of [JSON.parse] on the raw text; the remaining
    arguments answer the calls the handler makes to its environment. *)
Definition _handleMessage (ws : nat) (parsed : option jsval)
    (validationResult : bool) (uuid : string) (now : Z) : M unit :=
  match Protocol.parseMessage parsed with
  | None => _sendError ws "INVALID_MESSAGE" "Invalid message format"
  | Some message =>
      let result := Protocol.handleExtensionMessage now message in
      if negb (Protocol.valid (Protocol.result result)) then
        _sendError ws "VALIDATION_ERROR"
          (default EmptyString (Protocol.error (Protocol.result result)))
      else
        match Protocol.data (Protocol.result result) with
        | Some data =>
            if bool_decide (Protocol.type result = "auth") then
              _handleAuthMessage ws data validationResult uuid now
            else if bool_decide (Protocol.type result = "status") then
              _handleStatusMessage ws data
            else if bool_decide (Protocol.type result = "message-result") then
              _handleMessageResult ws data
            else if bool_decide (Protocol.type result = "heartbeat") then
              _handleHeartbeat ws data now
            else
              _sendError ws "UNKNOWN_MESSAGE_TYPE" "Unknown message type"
        | None => mret ()
        end
  end.

Definition _handleClose (ws : nat) : M unit :=
  td ← tempData ws;
  _ ← modify (λ g, set_sockets
        (alter (λ s, mkWebSocket (readyState s) (_tempData s) false (sent s)
                                 (closeCalls s))
               ws (sockets g)) g);
  match td with
  | Some td =>
      match td_sessionId td with
      | Some sid =>
          if authenticated td && negb (bool_decide (sid = EmptyString))
          then _ ← removeSession sid; mret ()
          else mret ()
      | None => mret ()
      end
  | None => mret ()
  end.

(** ** Outward operations *)

Definition REQUEST_TIMEOUT : Error :=
  formatError "REQUEST_TIMEOUT" "Request timed out after 30 seconds" JNull.
Definition CONNECTION_LOST : Error :=
  formatError "CONNECTION_LOST" "WebSocket connection is not open" JNull.
Definition VALIDATION_ERROR (message : string) : Error :=
  formatError "VALIDATION_ERROR" message JNull.
Definition NO_ACTIVE_DEVICE (apiKey : string) : Error :=
  formatError "NO_ACTIVE_DEVICE"
    "No active WhatsApp device connected for this API key"
    (JObj [("apiKey", JStr (sanitizeApiKey apiKey))]).

(** [sendMessage(apiKey, data)]; the result is the promise handed to the
    caller.  [requestId] is the fresh id from [generateRequestId]. *)
Definition sendMessage (apiKey : string) (data : jsval)
    (requestId : string) (now : Z) (random : nat) : M nat :=
  let validation := Protocol.validateSendMessageData data in
  if negb (Protocol.valid validation) then
    throwAsync (VALIDATION_ERROR (default EmptyString (Protocol.error validation)))
  else
    session ← getSessionForSending apiKey random;
    match (session : option SessionManager.Session) with
    | None => throwAsync (NO_ACTIVE_DEVICE apiKey)
    | Some session =>
        let sid := SessionManager.sessionId session in
        let command := Protocol.createSendMessageCommand requestId data in
        p ← newPromise;
        timeoutId ← setTimeout
          {| timer_sessionId := sid;
             timer_requestId := requestId;
             timer_promise := p |};
        _ ← modify (λ g, set_sessionManager
              (SessionManager.addPendingRequest (sessionManager g) sid requestId
                 {| SessionManager.resolve := p;
                    SessionManager.reject := p;
                    SessionManager.timeoutId := timeoutId;
                    SessionManager.createdAt := now;
                    SessionManager.type := "message" |}) g);
        open ← isOpen (SessionManager.ws session);
        if (open : bool) then
          _ ← wsSend (SessionManager.ws session) (CommandFrame command);
          mret p
        else
          _ ← clearTimeout timeoutId;
          _ ← resolvePendingRequest sid requestId None;
          _ ← settle p (Rejected CONNECTION_LOST);
          mret p
    end.

(** The callback a send hands to [setTimeout], run when timer [timeoutId]
    fires; a cleared timer never fires. *)
Definition fireTimeout (timeoutId : nat) : M unit :=
  tm ← gets (λ g, timers g !! timeoutId);
  match (tm : option Timer) with
  | None => mret ()
  | Some tm =>
      _ ← clearTimeout timeoutId;
      _ ← resolvePendingRequest (timer_sessionId tm) (timer_requestId tm) None;
      settle (timer_promise tm) (Rejected REQUEST_TIMEOUT)
  end.

Definition getActiveSessions (apiKey : string)
    : M (list SessionManager.SessionInfo) :=
  sm ← gets sessionManager;
  mret (SessionManager.getSessionInfo sm apiKey).

End Gateway.

(* ================================================================== *)
(** * The specification's vocabulary *)
(* ================================================================== *)

Module Spec.
Import JS Protocol.

(** "Starts with [+], followed by [lo]-[hi] digits, first digit after [+]
    is 1-9." *)
Definition plus_digits (lo hi : nat) (s : string) : Prop :=
  ∃ d ds,
    s = String "+" (String d ds)
    ∧ is_digit_1_9 d = true
    ∧ forallb is_digit (String.list_ascii_of_string ds) = true
    ∧ lo ≤ S (String.length ds) ≤ hi.

Inductive MediaKind : Type := Image | Video | Document.

Definition validateSendMediaData (k : MediaKind) (data : jsval)
    : completion Validation :=
  match k with
  | Image => validateSendImageData data
  | Video => validateSendVideoData data
  | Document => validateSendDocumentData data
  end.

(** The fetchable reference and the embedded payload of each media kind. *)
Definition reference (k : MediaKind) (data : jsval) : jsval :=
  match k with
  | Image => prop data "imageUrl"
  | Video => prop data "videoUrl"
  | Document => prop data "documentUrl"
  end.

Definition payload (k : MediaKind) (data : jsval) : jsval :=
  match k with
  | Image => prop data "imageDataUrl"
  | Video => prop data "videoDataUrl"
  | Document => prop data "documentDataUrl"
  end.

(** The prefix an embedded payload must carry; none for documents. *)
Definition family (k : MediaKind) : option string :=
  match k with
  | Image => Some "data:image/"
  | Video => Some "data:video/"
  | Document => None
  end.

Definition present (v : jsval) : Prop := truthy v = true.

(** What an accepted media input satisfies, with "at least one" where the
    specification says "exactly one". *)
Definition media_acceptable (k : MediaKind) (data : jsval) : Prop :=
  (∃ props, data = JObj props)
  ∧ isValidPhoneNumber (prop data "phoneNumber") = true
  ∧ (present (reference k data) ∨ present (payload k data))
  ∧ (∀ pre, family k = Some pre → present (payload k data) →
       ∃ s, payload k data = JStr s ∧ String.prefix pre s = true)
  ∧ (k = Document → ∃ n, prop data "documentName" = JStr n ∧ n ≠ EmptyString).

(** The embedded payload is absent or a string. *)
Definition payload_is_text (k : MediaKind) (data : jsval) : Prop :=
  ¬ present (payload k data) ∨ ∃ s, payload k data = JStr s.

(** ** Registry vocabulary *)

Import SessionManager.

(** Every session the registry holds, in scan order. *)
Definition allSessions (sm : SessionManager.t) : list Session :=
  sessions sm ≫= snd.

(** The states the registry can be in: [Map] keys are distinct, no bucket
    is empty, session ids are distinct, and a session sits in the bucket
    of its own credential. *)
Record wf (sm : SessionManager.t) : Prop := mkWf {
  wf_keys : NoDup (sessions sm).*1;
  wf_nonempty : Forall (λ e, e.2 ≠ []) (sessions sm);
  wf_ids : NoDup (sessionId <$> allSessions sm);
  wf_owner : Forall (λ e, Forall (λ s, apiKey s = e.1) e.2) (sessions sm)
}.

(** A registration ([addSession], with the id [uuidv4] returned and the
    clock reading) or a removal ([removeSession]). *)
Inductive RegistryOp : Type :=
| DoRegister (uuid : string) (now : Z) (apiKey : string) (ws : nat)
           (metadata : Metadata)
| DoUnregister (sid : string).

(** A rejected registration throws before it touches the registry. *)
Definition apply (sm : SessionManager.t) (op : RegistryOp) : SessionManager.t :=
  match op with
  | DoRegister uuid now apiKey ws metadata =>
      match addSession sm uuid now apiKey ws metadata with
      | inr (_, sm') => sm'
      | inl _ => sm
      end
  | DoUnregister sid => (removeSession sm sid).1.2
  end.

Definition run (sm : SessionManager.t) (ops : list RegistryOp)
    : SessionManager.t :=
  foldl apply sm ops.

(** The credential's bucket is absent from the [sessions] map. *)
Definition bucket_absent (sm : SessionManager.t) (apiKey : string) : Prop :=
  InsertionMap.has apiKey (sessions sm) = false.



(** What evicting one stale session does to the outside: the hook is
    called with it, then its pending requests are failed. *)
Definition evicted (s : Session) : list Effect :=
  OnStaleSession s :: rejectAll CONNECTION_LOST (pendingRequests s).

Definition noMetadata : Metadata :=
  {| md_ip := JUndefined; md_extensionVersion := JUndefined;
     md_browser := JUndefined |}.

Definition defaults : ConfigInput :=
  {| in_heartbeatInterval := None; in_maxSessionsPerKey := None;
     in_heartbeatTimeout := None; in_deviceSelectionStrategy := None |}.

(** The scenario of the specification: three sessions registered for
    credential [K], all reported logged-in and ready. *)
Definition three_active : SessionManager.t :=
  let sm := run (SessionManager.new defaults)
                [DoRegister "S1" 1 "K" 1 noMetadata;
                 DoRegister "S2" 2 "K" 2 noMetadata;
                 DoRegister "S3" 3 "K" 3 noMetadata] in
  updateSessionStatus
    (updateSessionStatus (updateSessionStatus sm "S1" true true)
                         "S2" true true)
    "S3" true true.

(** The same registry with one command in flight on [S1]: its promise is
    number 7 and its timer number 3. *)
Definition busy : SessionManager.t :=
  addPendingRequest three_active "S1" "r1"
    {| resolve := 7; reject := 7; timeoutId := 3; createdAt := 4;
       type := "message" |}.

(** ** Facade scenarios *)

Definition gatewayDefaults : Gateway.ConfigInput :=
  {| Gateway.in_heartbeatInterval := None; Gateway.in_requestTimeout := None;
     Gateway.in_maxSessionsPerKey := None;
     Gateway.in_deviceSelectionStrategy := None |}.

(** A device has connected on socket 1 and sent nothing yet. *)
Definition connected : Gateway.t :=
  (Gateway._handleConnection 1 (JStr "10.0.0.1") (Gateway.new gatewayDefaults)).2.

Definition authEnvelope : jsval :=
  JObj [("type", JStr "auth"); ("apiKey", JStr "K");
        ("data", JObj [("extensionVersion", JStr "1.0.0");
                       ("browser", JStr "Chrome")])].

Definition statusEnvelope : jsval :=
  JObj [("type", JStr "status");
        ("data", JObj [("whatsappLoggedIn", JBool true);
                       ("ready", JBool true)])].

Definition heartbeatEnvelope : jsval := JObj [("type", JStr "heartbeat")].

Definition resultEnvelope : jsval :=
  JObj [("type", JStr "message-result"); ("requestId", JStr "r1");
        ("success", JBool true)].

(** The device authenticated for credential [K] (session [S1]) ... *)
Definition authenticatedOnly : Gateway.t :=
  (Gateway._handleMessage 1 (Some authEnvelope) true "S1" 100 connected).2.

(** ... and reported itself logged-in and ready. *)
Definition ready : Gateway.t :=
  (Gateway._handleMessage 1 (Some statusEnvelope) true "S0" 101
     authenticatedOnly).2.

Definition textMessage : jsval :=
  JObj [("phoneNumber", JStr "+1234567890"); ("message", JStr "hello")].

(** The same gateway when the socket is no longer open (it is closing and
    its [close] event has not been delivered yet). *)
Definition closing : Gateway.t := (Gateway.wsClose 1 1001 "going away" ready).2.

(** The state of the promise a call returned. *)
Definition outcome (call : nat * Gateway.t) : option Gateway.PromiseState :=
  Gateway.promises call.2 !! call.1.

End Spec.


(* ================================================================== *)
(** * Data URLs ([src/utils.js]) *)
(* ================================================================== *)

Module DataUrl.
Import JS Utils.

(** ASCII case folding, which is all the [i] flag does to the letters of
    the file extensions matched below. *)
Definition toLower (c : ascii) : ascii :=
  let n := nat_of_ascii c in
  if bool_decide (65 ≤ n ≤ 90) then ascii_of_nat (n + 32) else c.

Fixpoint lower (s : string) : string :=
  match s with
  | EmptyString => EmptyString
  | String c rest => String (toLower c) (lower rest)
  end.

(** [s.match(/\.ext$/i)] for a lower-case literal [suffix]: the string ends
    with the suffix, letters compared without case. *)
Definition endsWith_i (suffix s : string) : bool :=
  bool_decide (String.length suffix ≤ String.length s)
  && bool_decide
       (lower (String.substring (String.length s - String.length suffix)
                                (String.length suffix) s) = suffix).

(** [s.includes(lit)] *)
Fixpoint includes (lit s : string) : bool :=
  String.prefix lit s
  || match s with
     | EmptyString => false
     | String _ rest => includes lit rest
     end.

(** The template [`data:${mimeType};base64,${base64}`]. *)
Definition dataUrlOf (mimeType base64 : string) : string :=
  "data:" +:+ mimeType +:+ ";base64," +:+ base64.

(** [urlToDataUrl(url, mimeType)]: [response] is how the HTTP exchange
    ended, either one of the function's own rejections ([FETCH_ERROR],
    [FILE_TOO_LARGE]) or the body received, already in base64. *)
Definition urlToDataUrl (mimeType : string) (response : Error + string)
    : Error + string :=
  match response with
  | inl error => inl error
  | inr base64 => inr (dataUrlOf mimeType base64)
  end.

Definition imageUrlToDataUrl (url : string) (response : Error + string)
    : Error + string :=
  let mimeType :=
    if endsWith_i ".png" url then "image/png"
    else if endsWith_i ".gif" url then "image/gif"
    else if endsWith_i ".webp" url then "image/webp"
    else if endsWith_i ".svg" url then "image/svg+xml"
    else "image/jpeg" in
  urlToDataUrl mimeType response.

Definition videoUrlToDataUrl (url : string) (response : Error + string)
    : Error + string :=
  let mimeType :=
    if endsWith_i ".webm" url then "video/webm"
    else if endsWith_i ".ogg" url then "video/ogg"
    else if endsWith_i ".mov" url then "video/quicktime"
    else "video/mp4" in
  urlToDataUrl mimeType response.

Definition documentUrlToDataUrl (url : string) (response : Error + string)
    : Error + string :=
  let mimeType :=
    if endsWith_i ".pdf" url then "application/pdf"
    else if endsWith_i ".doc" url then "application/msword"
    else if endsWith_i ".docx" url then
      "application/vnd.openxmlformats-officedocument.wordprocessingml.document"
    else if endsWith_i ".xls" url then "application/vnd.ms-excel"
    else if endsWith_i ".xlsx" url then
      "application/vnd.openxmlformats-officedocument.spreadsheetml.sheet"
    else if endsWith_i ".txt" url then "text/plain"
    else if endsWith_i ".zip" url then "application/zip"
    else "application/octet-stream" in
  urlToDataUrl mimeType response.

Definition isValidDataUrl (dataUrl : jsval) (expectedType : string) : bool :=
  if negb (truthy dataUrl) || negb (bool_decide (typeof dataUrl = TString))
  then false
  else match dataUrl with
       | JStr s =>
           if negb (String.prefix ("data:" +:+ expectedType) s) then false
           else includes "base64," s
       | _ => false
       end.

(** The capture of [/^data:([^;]+);/] on the text after ["data:"]: the
    characters before the first semicolon, if there is one. *)
Fixpoint beforeSemicolon (s : string) : option string :=
  match s with
  | EmptyString => None
  | String c rest =>
      if bool_decide (c = ";"%char) then Some EmptyString
      else String c <$> beforeSemicolon rest
  end.

Definition getMimeTypeFromDataUrl (dataUrl : jsval)
    : completion (option string) :=
  if negb (truthy dataUrl) then Return None
  else
    match dataUrl with
    | JStr s =>
        if negb (String.prefix "data:" s) then Return None
        else
          match beforeSemicolon (String.substring 5 (String.length s - 5) s) with
          | Some mime =>
              if bool_decide (mime = EmptyString) then Return None
              else Return (Some mime)
          | None => Return None
          end
    | _ => ThrowTypeError
    end.

End DataUrl.

(* ================================================================== *)
(** * Media sends and lifecycle ([class WhatsAppGateway], continued) *)
(* ================================================================== *)

Module Sends.
Import JS Utils Gateway.

(** The executor every send hands to [new Promise]: arm the timer,
    register the pending request, transmit or give up.  The four sends
    repeat it verbatim and differ in [type] only. *)
Definition executor (session : SessionManager.Session) (requestId : string)
    (command : Protocol.Command) (type : string) (now : Z) : M nat :=
  let sid := SessionManager.sessionId session in
  p ← newPromise;
  timeoutId ← setTimeout
    {| timer_sessionId := sid;
       timer_requestId := requestId;
       timer_promise := p |};
  _ ← modify (λ g, set_sessionManager
        (SessionManager.addPendingRequest (sessionManager g) sid requestId
           {| SessionManager.resolve := p;
              SessionManager.reject := p;
              SessionManager.timeoutId := timeoutId;
              SessionManager.createdAt := now;
              SessionManager.type := type |}) g);
  open ← isOpen (SessionManager.ws session);
  if (open : bool) then
    _ ← wsSend (SessionManager.ws session) (CommandFrame command);
    mret p
  else
    _ ← clearTimeout timeoutId;
    _ ← resolvePendingRequest sid requestId None;
    _ ← settle p (Rejected CONNECTION_LOST);
    mret p.

(** The [TypeError] raised by calling [startsWith] on a value that has no
    such method. *)
Definition notAFunction (field : string) : Error :=
  newError ("data." +:+ field +:+ ".startsWith is not a function").

(** The part of a media send after validation and media resolution;
    [resolved] is the data URL to transmit, or the error the fetch ended
    with. *)
Definition dispatch (apiKey : string) (resolved : Error + jsval)
    (build : string → jsval → Protocol.Command) (type : string)
    (requestId : string) (now : Z) (random : nat) : M nat :=
  match resolved with
  | inl error => throwAsync error
  | inr dataUrl =>
      session ← getSessionForSending apiKey random;
      match (session : option SessionManager.Session) with
      | None => throwAsync (NO_ACTIVE_DEVICE apiKey)
      | Some session =>
          executor session requestId (build requestId dataUrl) type now
      end
  end.

(** [let u = data.xDataUrl; if (!u && data.xUrl) u = await fetch(data.xUrl)]:
    [fetched] is how the awaited conversion ended. *)
Definition resolveMedia (embedded reference : jsval)
    (fetched : Error + string) : Error + jsval :=
  if negb (truthy embedded) && truthy reference
  then match fetched with inl error => inl error | inr s => inr (JStr s) end
  else inr embedded.

Definition sendImage (apiKey : string) (data : jsval)
    (fetched : Error + string) (requestId : string) (now : Z) (random : nat)
    : M nat :=
  match Protocol.validateSendImageData data with
  | ThrowTypeError => throwAsync (notAFunction "imageDataUrl")
  | Return validation =>
      if negb (Protocol.valid validation) then
        throwAsync (VALIDATION_ERROR (default EmptyString (Protocol.error validation)))
      else
        dispatch apiKey
          (resolveMedia (prop data "imageDataUrl") (prop data "imageUrl") fetched)
          (λ requestId imageDataUrl,
             Protocol.createSendImageCommand requestId
               (JObj [("phoneNumber", prop data "phoneNumber");
                      ("imageDataUrl", imageDataUrl);
                      ("caption", prop data "caption")]))
          "image" requestId now random
  end.

Definition sendVideo (apiKey : string) (data : jsval)
    (fetched : Error + string) (requestId : string) (now : Z) (random : nat)
    : M nat :=
  match Protocol.validateSendVideoData data with
  | ThrowTypeError => throwAsync (notAFunction "videoDataUrl")
  | Return validation =>
      if negb (Protocol.valid validation) then
        throwAsync (VALIDATION_ERROR (default EmptyString (Protocol.error validation)))
      else
        dispatch apiKey
          (resolveMedia (prop data "videoDataUrl") (prop data "videoUrl") fetched)
          (λ requestId videoDataUrl,
             Protocol.createSendVideoCommand requestId
               (JObj [("phoneNumber", prop data "phoneNumber");
                      ("videoDataUrl", videoDataUrl);
                      ("caption", prop data "caption")]))
          "video" requestId now random
  end.

Definition sendDocument (apiKey : string) (data : jsval)
    (fetched : Error + string) (requestId : string) (now : Z) (random : nat)
    : M nat :=
  match Protocol.validateSendDocumentData data with
  | ThrowTypeError => throwAsync (notAFunction "documentDataUrl")
  | Return validation =>
      if negb (Protocol.valid validation) then
        throwAsync (VALIDATION_ERROR (default EmptyString (Protocol.error validation)))
      else
        dispatch apiKey
          (resolveMedia (prop data "documentDataUrl") (prop data "documentUrl")
             fetched)
          (λ requestId documentDataUrl,
             Protocol.createSendDocumentCommand requestId
               (JObj [("phoneNumber", prop data "phoneNumber");
                      ("documentDataUrl", documentDataUrl);
                      ("documentName", prop data "documentName")]))
          "document" requestId now random
  end.

(** ** Lifecycle *)

Definition set_isRunning (b : bool) (g : Gateway.t) : Gateway.t :=
  mkGateway (config g) (sessionManager g) b (sockets g) (promises g)
            (timers g) (nextPromise g) (nextTimer g) (messageLog g).

(** The gateway with the one field the handlers never read. *)
Record Server : Type := mkServer {
  gateway : Gateway.t;
  startTime : option Z
}.

(** [start()]: [Some error] when the returned promise is rejected. *)
Definition start (now : Z) (srv : Server) : option Error * Server :=
  if isRunning (gateway srv) then
    (Some (newError "Gateway is already running"), srv)
  else
    (None,
     {| gateway :=
          set_isRunning true
            (set_sessionManager
               (SessionManager.startHeartbeatMonitor
                  (sessionManager (gateway srv)))
               (gateway srv));
        startTime := Some now |}).

Fixpoint closeAll (clients : list nat) : M unit :=
  match clients with
  | [] => mret ()
  | ws :: rest => _ ← wsClose ws 1000 "Server shutting down"; closeAll rest
  end.

(** [stop()]: [clients] enumerates [wss.clients]. *)
Definition stop (clients : list nat) (srv : Server) : Server :=
  if negb (isRunning (gateway srv)) then srv
  else
    let g1 := set_sessionManager
                (SessionManager.stopHeartbeatMonitor
                   (sessionManager (gateway srv)))
                (gateway srv) in
    let g2 := (closeAll clients g1).2 in
    let '(sm', effects) := SessionManager.cleanup (sessionManager g2) in
    let g3 := (performAll effects (set_sessionManager sm' g2)).2 in
    {| gateway := set_isRunning false g3; startTime := None |}.

Record Health : Type := mkHealth {
  status : string;
  activeSessions : nat;
  uptime : Z;
  timestamp : Z
}.

Definition getHealth (now : Z) (srv : Server) : Health :=
  {| status := if isRunning (gateway srv) then "ok" else "stopped";
     activeSessions :=
       SessionManager.getTotalSessionCount (sessionManager (gateway srv));
     uptime :=
       match startTime srv with
       | Some t => if (t =? 0)%Z then 0%Z else (now - t)%Z
       | None => 0%Z
       end;
     timestamp := now |}.

End Sends.
(* ================================================================== *)
(** * Properties of the protocol codec *)
(* ================================================================== *)

Section ProtocolProperties.
Import JS Protocol Spec.

Lemma phoneRegex_test_spec (s : string) :
  phoneRegex_test s = true ↔ plus_digits 2 15 s.
Proof.
  unfold plus_digits. split.
  - destruct s as [|c [|d rest]]; simpl; try done.
    rewrite !andb_true_iff, !bool_decide_eq_true.
    intros [[[-> Hd] Hall] [Hlo Hhi]].
    exists d, rest. repeat split; auto; lia.
  - intros (d & ds & -> & Hd & Hall & Hlo & Hhi). simpl.
    rewrite !andb_true_iff, !bool_decide_eq_true.
    repeat split; auto; lia.
Qed.

Lemma isValidPhoneNumber_string (v : jsval) :
  isValidPhoneNumber v = true → ∃ s, v = JStr s ∧ phoneRegex_test s = true.
Proof.
  unfold isValidPhoneNumber.
  destruct v; simpl; try done.
  - destruct b; done.
  - destruct (n =? 0)%Z; done.
  - destruct (_ || _); [done|]. eauto.
Qed.

(** C3, as the specification words it, fails at ["+1"]: the string is a
    plus sign followed by one digit 1-9, which the claimed pattern (1 to 15
    digits) admits, and the validator returns [false]. *)
Lemma isValidPhoneNumber_rejects_plus_one :
  plus_digits 1 15 "+1" ∧ isValidPhoneNumber (JStr "+1") = false.
Proof.
  split; [|reflexivity].
  exists "1"%char, EmptyString. repeat split; simpl; lia.
Qed.

(** C3 (amended): [isValidPhoneNumber] returns [true] exactly for the
    strings made of a plus sign followed by 2 to 15 digits whose first
    digit is 1-9.  It accepts ["+1234567890"] and ["+12345"], and rejects
    ["+0123456789"] (leading zero), ["1234567890"] (no plus) and ["+1"] (a
    single digit). *)
Theorem isValidPhoneNumber_spec :
  (∀ v, isValidPhoneNumber v = true ↔ ∃ s, v = JStr s ∧ plus_digits 2 15 s)
  ∧ isValidPhoneNumber (JStr "+1234567890") = true
  ∧ isValidPhoneNumber (JStr "+12345") = true
  ∧ isValidPhoneNumber (JStr "+0123456789") = false
  ∧ isValidPhoneNumber (JStr "1234567890") = false
  ∧ isValidPhoneNumber (JStr "+1") = false.
Proof.
  split; [|by repeat split].
  intros v. split.
  - intros (s & -> & Hs)%isValidPhoneNumber_string.
    exists s. split; [done|]. by apply phoneRegex_test_spec.
  - intros (s & -> & Hs). pose proof Hs as (d & ds & -> & _).
    apply phoneRegex_test_spec in Hs. exact Hs.
Qed.

(** ** Media validators *)

Lemma truthy_object (data : jsval) :
  negb (truthy data) || negb (bool_decide (typeof data = TObject)) = false
  ↔ ∃ props, data = JObj props.
Proof.
  split.
  - destruct data; simpl; try done; eauto.
    destruct b; done.
    destruct (n =? 0)%Z; done.
    destruct (bool_decide _); done.
  - by intros [props ->].
Qed.

Lemma nonempty_text (v : jsval) :
  negb (truthy v) || negb (bool_decide (typeof v = TString)) = false
  ↔ ∃ n, v = JStr n ∧ n ≠ EmptyString.
Proof.
  split.
  - destruct v; simpl; try done.
    + destruct b; done.
    + destruct (n =? 0)%Z; done.
    + rewrite orb_false_r. intros H%negb_false_iff%negb_true_iff.
      apply bool_decide_eq_false in H. eauto.
  - intros (n & -> & Hn). simpl.
    by rewrite (bool_decide_eq_false_2 _ Hn).
Qed.

Lemma startsWith_text (v : jsval) (pre : string) (b : bool) :
  startsWith v pre = Return b → ∃ s, v = JStr s ∧ String.prefix pre s = b.
Proof. destruct v; simpl; try done. intros [= <-]. eauto. Qed.

(** C9, as the specification words it, fails: an image input carrying both
    a fetchable reference and a well-formed embedded payload is accepted,
    although not "exactly one" of them is present. *)
Lemma validateSendImageData_accepts_both :
  let data := JObj [("phoneNumber", JStr "+1234567890");
                    ("imageUrl", JStr "https://example.com/a.png");
                    ("imageDataUrl", JStr "data:image/png;base64,AAAA")] in
  validateSendMediaData Image data = Return valid_ok
  ∧ present (reference Image data) ∧ present (payload Image data).
Proof. by repeat split. Qed.

Local Ltac media_case H :=
  let E := fresh "E" in
  match type of H with
  | context [if ?b then _ else _] =>
      destruct b eqn:E; [try discriminate H | ]
  end.

Lemma media_accepted_only_if (k : MediaKind) (data : jsval) :
  validateSendMediaData k data = Return valid_ok → media_acceptable k data.
Proof.
  unfold media_acceptable, present.
  destruct k; simpl; unfold validateSendImageData, validateSendVideoData,
    validateSendDocumentData; intros H.
  - media_case H. apply truthy_object in E as [props ->].
    media_case H. apply negb_false_iff in E.
    media_case H. apply andb_false_iff in E0.
    rewrite !negb_false_iff in E0.
    split; [eauto|]. split; [done|]. split; [done|].
    split; [|done]. intros pre [= <-] Hp. rewrite Hp in H.
    destruct (startsWith _ _) as [[]|] eqn:Hs; try done.
    by apply startsWith_text in Hs.
  - media_case H. apply truthy_object in E as [props ->].
    media_case H. apply negb_false_iff in E.
    media_case H. apply andb_false_iff in E0.
    rewrite !negb_false_iff in E0.
    split; [eauto|]. split; [done|]. split; [done|].
    split; [|done]. intros pre [= <-] Hp. rewrite Hp in H.
    destruct (startsWith _ _) as [[]|] eqn:Hs; try done.
    by apply startsWith_text in Hs.
  - media_case H. apply truthy_object in E as [props ->].
    media_case H. apply negb_false_iff in E.
    media_case H. apply andb_false_iff in E0.
    rewrite !negb_false_iff in E0.
    media_case H. apply nonempty_text in E1.
    split; [eauto|]. split; [done|]. split; [done|].
    split; [done|]. done.
Qed.

Lemma media_acceptable_accepted (k : MediaKind) (data : jsval) :
  media_acceptable k data → validateSendMediaData k data = Return valid_ok.
Proof.
  unfold media_acceptable, present.
  intros ([props ->] & Hphone & Hone & Hfam & Hname).
  assert (negb (truthy (reference k (JObj props)))
          && negb (truthy (payload k (JObj props))) = false) as Hone'.
  { destruct Hone as [-> | ->]; simpl; [done|]. by rewrite andb_false_r. }
  destruct k; simpl in *;
    unfold validateSendImageData, validateSendVideoData,
      validateSendDocumentData; simpl; rewrite Hphone; simpl;
    rewrite Hone'.
  - destruct (truthy (assoc "imageDataUrl" props)) eqn:Hp; [|done].
    destruct (Hfam _ eq_refl eq_refl) as (s & -> & Hs). simpl. by rewrite Hs.
  - destruct (truthy (assoc "videoDataUrl" props)) eqn:Hp; [|done].
    destruct (Hfam _ eq_refl eq_refl) as (s & -> & Hs). simpl. by rewrite Hs.
  - destruct (Hname eq_refl) as (n & Hn & Hne).
    assert (negb (truthy (assoc "documentName" props))
            || negb (bool_decide (typeof (assoc "documentName" props) = TString))
            = false) as ->; [|done].
    apply nonempty_text. eauto.
Qed.

Lemma media_never_throws_on_text (k : MediaKind) (data : jsval) :
  payload_is_text k data → ∃ v, validateSendMediaData k data = Return v
    ∧ (v = valid_ok ∨ ∃ msg, v = invalid msg).
Proof.
  unfold payload_is_text, present. intros Hp.
  destruct k; simpl in *; unfold validateSendImageData,
    validateSendVideoData, validateSendDocumentData;
    repeat match goal with
    | |- context [if ?b then _ else _] => destruct b eqn:?
    | |- context [match startsWith ?v ?p with _ => _ end] =>
        destruct (startsWith v p) as [[]|] eqn:?
    end; eauto.
  all: destruct Hp as [Hp | [s Hs]]; [done|].
  all: rewrite Hs in *; simpl in *; done.
Qed.

(** C9 (amended): a media input (image, video, document) is accepted
    exactly when it is an object with a valid phone number, at least one
    of the fetchable reference and the embedded payload is present, the
    embedded payload -- when present -- is a string carrying the prefix of
    its media family ([data:image/], [data:video/]; any value for a
    document), and, for a document, the file name is a non-empty string.
    Every other input whose embedded payload is absent or a string is
    rejected with a validation failure carrying a message. *)
Theorem validateSendMediaData_spec (k : MediaKind) (data : jsval) :
  (validateSendMediaData k data = Return valid_ok ↔ media_acceptable k data)
  ∧ (payload_is_text k data → ¬ media_acceptable k data →
     ∃ msg, validateSendMediaData k data = Return (invalid msg)).
Proof.
  split.
  - split; [apply media_accepted_only_if | apply media_acceptable_accepted].
  - intros Htext Hno.
    destruct (media_never_throws_on_text k data Htext)
      as (v & Hv & [-> | [msg ->]]); [|eauto].
    by apply media_accepted_only_if in Hv.
Qed.

(** An image input with a string payload of the wrong family is rejected
    with the validator's message. *)
Lemma validateSendMediaData_spec_witness :
  let data := JObj [("phoneNumber", JStr "+1234567890");
                    ("imageDataUrl", JStr "data:video/mp4;base64,AAAA")] in
  ∃ msg, validateSendMediaData Image data = Return (invalid msg).
Proof.
  intros data.
  apply (proj2 (validateSendMediaData_spec Image data)).
  - right. by exists "data:video/mp4;base64,AAAA"%string.
  - intros (_ & _ & _ & Hfam & _).
    destruct (Hfam _ eq_refl eq_refl) as (s & [= <-] & Hs).
    vm_compute in Hs. discriminate Hs.
Defined.

End ProtocolProperties.

(* ================================================================== *)
(** * Properties of the session registry *)
(* ================================================================== *)

Section InsertionMapFacts.
Context {V : Type}.
Implicit Types (m : list (string * V)) (k : string).

Lemma get_Some_elem k m v : InsertionMap.get k m = Some v → (k, v) ∈ m.
Proof.
  induction m as [|[k' v'] m IH]; simpl; [done|].
  case_bool_decide as Hk; [|right; auto].
  intros [= ->]. rewrite Hk. left.
Qed.

Lemma get_None_keys k m : InsertionMap.get k m = None ↔ k ∉ m.*1.
Proof.
  induction m as [|[k' v'] m IH]; simpl.
  - split; [intros _; apply not_elem_of_nil | done].
  - rewrite not_elem_of_cons. case_bool_decide; subst.
    + split; [done | intros [? _]; done].
    + rewrite IH. naive_solver.
Qed.

Lemma has_false k m : InsertionMap.has k m = false ↔ InsertionMap.get k m = None.
Proof.
  unfold InsertionMap.has. rewrite bool_decide_eq_false.
  destruct (InsertionMap.get k m) eqn:E; split; intros H; try done.
  destruct H. eauto.
Qed.

Lemma set_fresh k v m :
  InsertionMap.get k m = None → InsertionMap.set k v m = m ++ [(k, v)].
Proof.
  induction m as [|[k' v'] m IH]; simpl; [done|].
  case_bool_decide; [done|]. intros Hg. by rewrite IH.
Qed.

Lemma update_fresh k v f m :
  InsertionMap.get k m = None →
  InsertionMap.update k f (m ++ [(k, v)]) = m ++ [(k, f v)].
Proof.
  induction m as [|[k' v'] m IH]; simpl.
  - by rewrite bool_decide_eq_true_2.
  - case_bool_decide; [done|]. intros Hg. by rewrite IH.
Qed.

Lemma update_Forall (Q : string * V → Prop) k f m :
  Forall Q m → (∀ v, Q (k, v) → Q (k, f v)) → Forall Q (InsertionMap.update k f m).
Proof.
  intros Hm Hf. induction Hm as [|[k' v'] m Hx Hm IH]; simpl; [done|].
  case_bool_decide; subst; constructor; auto.
Qed.

Lemma get_app_other k k0 (v : V) pre post :
  k ≠ k0 →
  InsertionMap.get k (pre ++ (k0, v) :: post) = InsertionMap.get k (pre ++ post).
Proof.
  intros Hne. induction pre as [|[k' v'] pre IH]; simpl.
  - by rewrite bool_decide_eq_false_2.
  - by rewrite IH.
Qed.

Lemma get_app_here k (v : V) pre post :
  k ∉ pre.*1 → InsertionMap.get k (pre ++ (k, v) :: post) = Some v.
Proof.
  induction pre as [|[k' v'] pre IH]; simpl.
  - by rewrite bool_decide_eq_true_2.
  - rewrite not_elem_of_cons. intros [? ?].
    rewrite bool_decide_eq_false_2 by done. auto.
Qed.

Lemma filter_keys_id k m :
  k ∉ m.*1 → filter (λ e, e.1 ≠ k) m = m.
Proof.
  induction m as [|[k' v'] m IH]; simpl; [done|].
  rewrite not_elem_of_cons. intros [Hk Hm].
  rewrite filter_cons_True by (simpl; congruence). by rewrite IH.
Qed.

Lemma delete_app_here k (v : V) pre post :
  k ∉ pre.*1 → k ∉ post.*1 →
  InsertionMap.delete k (pre ++ (k, v) :: post) = pre ++ post.
Proof.
  intros Hpre Hpost. unfold InsertionMap.delete.
  rewrite filter_app, filter_cons_False by (simpl; auto).
  by rewrite !filter_keys_id.
Qed.

Lemma delete_Forall (Q : string * V → Prop) k m :
  Forall (λ e, e.1 ≠ k → Q e) m → Forall Q (InsertionMap.delete k m).
Proof.
  unfold InsertionMap.delete. intros Hm.
  induction Hm as [|[k' v'] m Hx Hm IH]; [constructor|].
  destruct (decide (k' = k)) as [->|Hne].
  - by rewrite filter_cons_False by (simpl; auto).
  - rewrite filter_cons_True by done. constructor; auto.
Qed.
End InsertionMapFacts.
Section RegistryFacts.
Import JS Utils SessionManager Spec.
Implicit Types (sm : SessionManager.t) (entries : list (string * list Session)).

Lemma findSession_Some sid (ss : list Session) i s :
  findSession sid ss = Some (i, s) → ss !! i = Some s ∧ sessionId s = sid.
Proof. unfold findSession. intros H%list_find_Some. naive_solver. Qed.

Lemma findSession_None sid (ss : list Session) :
  findSession sid ss = None ↔ sid ∉ sessionId <$> ss.
Proof.
  unfold findSession. rewrite list_find_None, Forall_forall.
  rewrite list_elem_of_fmap. naive_solver.
Qed.

Lemma findSession_first sid (ss : list Session) i s j y :
  findSession sid ss = Some (i, s) → ss !! j = Some y → j < i →
  sessionId y ≠ sid.
Proof. unfold findSession. intros H%list_find_Some. naive_solver. Qed.

(** Where the loops of [removeSession] and [getSession] stop. *)
Lemma locate_split sid entries k b i s :
  locate sid entries = Some (k, b, i, s) →
  ∃ pre post,
    entries = pre ++ (k, b) :: post
    ∧ (sid ∉ sessionId <$> (pre ≫= snd))
    ∧ findSession sid b = Some (i, s)
    ∧ splice sid entries = pre ++ (k, base.delete i b) :: post
    ∧ ∀ f, mutate sid f entries = pre ++ (k, alter f i b) :: post.
Proof.
  induction entries as [|[k' ss] entries IH]; simpl; [done|].
  destruct (findSession sid ss) as [[i' s']|] eqn:Hf.
  - intros [= -> -> -> ->]. exists [], entries. repeat split; try done.
    simpl. apply not_elem_of_nil.
  - intros (pre & post & -> & Hpre & Hb & Hsp & Hmu)%IH.
    exists ((k', ss) :: pre), post. repeat split; try done.
    + simpl. rewrite fmap_app, elem_of_app.
      apply findSession_None in Hf. naive_solver.
    + simpl. by rewrite Hsp.
    + intros f. simpl. by rewrite Hmu.
Qed.

Lemma locate_None sid entries :
  locate sid entries = None ↔ sid ∉ sessionId <$> (entries ≫= snd).
Proof.
  induction entries as [|[k' ss] entries IH]; simpl.
  - split; [intros _; apply not_elem_of_nil | done].
  - rewrite fmap_app, not_elem_of_app, <-IH, <-findSession_None.
    destruct (findSession sid ss) as [[i' s']|]; naive_solver.
Qed.

Lemma locate_None_fixed sid entries :
  locate sid entries = None →
  splice sid entries = entries ∧ ∀ f, mutate sid f entries = entries.
Proof.
  induction entries as [|[k' ss] entries IH]; simpl; [done|].
  destruct (findSession sid ss) as [[i' s']|]; [done|].
  intros [Hs Hm]%IH. split; [by rewrite Hs|]. intros f. by rewrite Hm.
Qed.

Lemma getSession_in_locate sid entries :
  getSession_in sid entries = (λ x, x.2) <$> locate sid entries.
Proof.
  induction entries as [|[k' ss] entries IH]; simpl; [done|].
  by destruct (findSession sid ss) as [[i' s']|].
Qed.

Lemma getSession_Some sm sid s :
  getSession sm sid = Some s ↔ ∃ k b i, locate sid (sessions sm) = Some (k, b, i, s).
Proof.
  unfold getSession. rewrite getSession_in_locate.
  destruct (locate sid (sessions sm)) as [[[[k b] i] s']|]; simpl.
  - split; [intros [= ->]; eauto | intros (?&?&?&[= -> -> -> ->]); done].
  - split; [done | intros (?&?&?&?); done].
Qed.

Lemma getSession_None sm sid :
  getSession sm sid = None ↔ sid ∉ sessionId <$> allSessions sm.
Proof.
  unfold getSession, allSessions. rewrite getSession_in_locate, <-locate_None.
  by destruct (locate sid (sessions sm)).
Qed.

(** ** No dangling empty buckets *)

Lemma addSession_sessions sm uuid now k ws md s sm' :
  addSession sm uuid now k ws md = inr (s, sm') →
  config sm' = config sm
  ∧ roundRobinCounters sm' = roundRobinCounters sm
  ∧ sessionId s = uuid ∧ apiKey s = k ∧ deviceActive s = false
  ∧ ((InsertionMap.get k (sessions sm) = None
      ∧ sessions sm' = sessions sm ++ [(k, [s])])
     ∨ (is_Some (InsertionMap.get k (sessions sm))
        ∧ sessions sm' =
            InsertionMap.update k (λ bucket, bucket ++ [s]) (sessions sm))).
Proof.
  unfold addSession. case_bool_decide; [done|].
  intros [= <- <-]. simpl. repeat split; try done.
  destruct (InsertionMap.has k (sessions sm)) eqn:Hhas.
  - right. split; [|done].
    unfold InsertionMap.has in Hhas. by apply bool_decide_eq_true in Hhas.
  - left. apply has_false in Hhas. split; [done|].
    by rewrite set_fresh, update_fresh.
Qed.

Lemma addSession_nonempty sm uuid now k ws md s sm' :
  addSession sm uuid now k ws md = inr (s, sm') →
  Forall (λ e, e.2 ≠ []) (sessions sm) → Forall (λ e, e.2 ≠ []) (sessions sm').
Proof.
  intros (_ & _ & _ & _ & _ & [[_ ->] | [_ ->]])%addSession_sessions Hne.
  - apply Forall_app. split; [done|]. by repeat constructor.
  - apply update_Forall; [done|]. simpl. intros v _.
    by destruct v.
Qed.

Lemma removeSession_nonempty sm sid :
  Forall (λ e, e.2 ≠ []) (sessions sm) →
  Forall (λ e, e.2 ≠ []) (sessions (removeSession sm sid).1.2).
Proof.
  intros Hne. unfold removeSession.
  destruct (locate sid (sessions sm)) as [[[[k b] i] s]|] eqn:Hloc; [|done].
  apply locate_split in Hloc as (pre & post & Hsm & _ & _ & Hsp & _).
  rewrite Hsm in Hne. apply Forall_app in Hne as [Hpre Hpost].
  apply Forall_cons in Hpost as [_ Hpost].
  case_bool_decide as Hlen; simpl; rewrite Hsp.
  - apply delete_Forall, Forall_app. split.
    + eapply Forall_impl; [exact Hpre|]. auto.
    + constructor; [done|]. eapply Forall_impl; [exact Hpost|]. auto.
  - apply Forall_app. split; [done|]. constructor; [|done].
    simpl. intros E. by rewrite E in Hlen.
Qed.

Lemma run_nonempty sm ops :
  Forall (λ e, e.2 ≠ []) (sessions sm) →
  Forall (λ e, e.2 ≠ []) (sessions (run sm ops)).
Proof.
  revert sm. induction ops as [|op ops IH]; intros sm Hne; [done|].
  simpl. apply IH. destruct op as [uuid now k ws md | sid]; simpl.
  - destruct (addSession sm uuid now k ws md) as [|[s sm']] eqn:Ha; [done|].
    by eapply addSession_nonempty.
  - by apply removeSession_nonempty.
Qed.

(** C4, as the specification words it, fails: a session is registered
    inactive, so after a single registration the credential's bucket is
    present while its number of active sessions is zero. *)
Lemma bucket_present_without_active_sessions :
  let sm := run (SessionManager.new defaults)
                [DoRegister "S1" 0 "K" 1 noMetadata] in
  ¬ (bucket_absent sm "K" ↔ length (getActiveSessions sm "K") = 0).
Proof. intros sm [_ H]. by specialize (H eq_refl). Qed.

(** C4 (amended): after every sequence of registrations and removals, and
    for every credential, the credential's bucket is absent from the
    registry's session map if and only if the number of sessions registered
    under that credential -- active or not -- is zero. *)
Theorem bucket_absent_iff_no_sessions
    (config : ConfigInput) (ops : list RegistryOp) (apiKey : string) :
  let sm := run (SessionManager.new config) ops in
  bucket_absent sm apiKey ↔ length (getSessions sm apiKey) = 0.
Proof.
  intros sm. unfold bucket_absent, getSessions. rewrite has_false.
  assert (Forall (λ e, e.2 ≠ []) (sessions sm)) as Hne.
  { apply run_nonempty. constructor. }
  destruct (InsertionMap.get apiKey (sessions sm)) as [b|] eqn:Hget; simpl.
  - split; [done|]. intros Hlen.
    apply get_Some_elem in Hget. rewrite Forall_forall in Hne.
    apply Hne in Hget. simpl in Hget. by destruct b.
  - done.
Qed.

End RegistryFacts.
Section RoundRobin.
Import JS Utils SessionManager Spec.
Implicit Types (sm : SessionManager.t).







End RoundRobin.
Section WellFormed.
Import JS Utils SessionManager Spec.
Implicit Types (sm : SessionManager.t) (entries : list (string * list Session)).

Lemma filter_all {A} (P : A → Prop) `{∀ x, Decision (P x)} (l : list A) :
  Forall P l → filter P l = l.
Proof.
  induction 1 as [|x l Hx Hl IH]; [done|].
  by rewrite filter_cons_True, IH.
Qed.

Lemma filter_other_id (b : list Session) sid :
  sid ∉ sessionId <$> b → filter (λ x, sessionId x ≠ sid) b = b.
Proof.
  intros Hnot. apply filter_all, Forall_forall. intros x Hx E.
  apply Hnot. rewrite <-E. by apply list_elem_of_fmap_2.
Qed.

Lemma filter_id_delete (b : list Session) i s :
  NoDup (sessionId <$> b) → b !! i = Some s →
  filter (λ x, sessionId x ≠ sessionId s) b = base.delete i b.
Proof.
  revert i. induction b as [|x b IH]; intros i Hnd Hi; [done|].
  rewrite fmap_cons in Hnd. apply NoDup_cons in Hnd as [Hx Hnd].
  destruct i as [|i]; simpl in Hi.
  - injection Hi as ->. rewrite filter_cons_False by auto.
    by apply filter_other_id.
  - assert (sessionId x ≠ sessionId s) as Hne.
    { intros E. apply Hx. rewrite E.
      apply list_elem_of_fmap_2. by eapply list_elem_of_lookup_2. }
    rewrite filter_cons_True by done. simpl. f_equal. by apply IH.
Qed.

Lemma allSessions_split (pre post : list (string * list Session)) k b :
  (pre ++ (k, b) :: post) ≫= snd = (pre ≫= snd) ++ b ++ (post ≫= snd).
Proof. by rewrite bind_app, bind_cons. Qed.

Lemma getSessions_elem sm k s :
  s ∈ getSessions sm k → s ∈ allSessions sm.
Proof.
  unfold getSessions, allSessions.
  destruct (InsertionMap.get k (sessions sm)) as [b|] eqn:Hget; simpl.
  - intros Hs. apply get_Some_elem in Hget.
    apply list_elem_of_bind. by exists (k, b).
  - by intros ?%elem_of_nil.
Qed.

Lemma wf_owner_getSessions sm k s :
  wf sm → s ∈ getSessions sm k → apiKey s = k.
Proof.
  intros [_ _ _ Hown]. unfold getSessions.
  destruct (InsertionMap.get k (sessions sm)) as [b|] eqn:Hget; simpl.
  - intros Hs. apply get_Some_elem in Hget.
    rewrite Forall_forall in Hown. specialize (Hown _ Hget).
    simpl in Hown. rewrite Forall_forall in Hown. auto.
  - by intros ?%elem_of_nil.
Qed.

(** In a well-formed registry the buckets partition the sessions. *)
Lemma wf_allSessions_bucket sm s :
  wf sm → s ∈ allSessions sm → s ∈ getSessions sm (apiKey s).
Proof.
  intros [Hk _ _ Hown]. unfold allSessions, getSessions.
  intros ([k b] & Hs & Hkb)%list_elem_of_bind. simpl in Hs.
  rewrite Forall_forall in Hown. pose proof (Hown _ Hkb) as Hb.
  simpl in Hb. rewrite Forall_forall in Hb. rewrite (Hb _ Hs).
  apply list_elem_of_split in Hkb as (pre & post & Heq).
  rewrite Heq in Hk |- *.
  rewrite fmap_app, fmap_cons in Hk. apply NoDup_app in Hk as (_ & Hk & _).
  rewrite get_app_here; [done|]. intros Hin. apply (Hk _ Hin). left.
Qed.

Lemma NoDup_fmap_inj {A B} (f : A → B) (l : list A) x y :
  NoDup (f <$> l) → x ∈ l → y ∈ l → f x = f y → x = y.
Proof.
  induction l as [|z l IH]; [by intros _ ?%elem_of_nil|].
  rewrite fmap_cons, NoDup_cons, !elem_of_cons.
  intros [Hz Hnd] [->|Hx] [->|Hy] Hf; auto.
  - destruct Hz. rewrite Hf. by apply list_elem_of_fmap_2.
  - destruct Hz. rewrite <-Hf. by apply list_elem_of_fmap_2.
Qed.

(** With distinct ids, looking a session up by id finds exactly the
    session that carries it. *)
Lemma wf_getSession sm s :
  wf sm → s ∈ allSessions sm → getSession sm (sessionId s) = Some s.
Proof.
  intros Hwf Hs.
  destruct (getSession sm (sessionId s)) as [s'|] eqn:Hget.
  - f_equal. apply getSession_Some in Hget as (k & b & i & Hloc).
    apply locate_split in Hloc as (pre & post & Heq & _ & Hf & _).
    apply findSession_Some in Hf as [Hi Hid].
    eapply (NoDup_fmap_inj sessionId); [apply Hwf| |done..].
    unfold allSessions. rewrite Heq, allSessions_split, !elem_of_app.
    right; left. by eapply list_elem_of_lookup_2.
  - apply getSession_None in Hget. destruct Hget.
    by apply list_elem_of_fmap_2.
Qed.

Lemma getSession_elem sm sid s :
  getSession sm sid = Some s → s ∈ allSessions sm ∧ sessionId s = sid.
Proof.
  intros (k & b & i & Hloc)%getSession_Some.
  apply locate_split in Hloc as (pre & post & Heq & _ & Hf & _).
  apply findSession_Some in Hf as [Hi Hid]. split; [|done].
  unfold allSessions. rewrite Heq, allSessions_split, !elem_of_app.
  right; left. by eapply list_elem_of_lookup_2.
Qed.

End WellFormed.
Section Removal.
Import JS Utils SessionManager Spec.
Implicit Types (sm : SessionManager.t) (entries : list (string * list Session)).

(** What [removeSession] returns and does to the outside. *)
Lemma removeSession_result sm sid :
  match getSession sm sid with
  | Some s =>
      ∃ sm', removeSession sm sid
             = (true, sm', rejectAll CONNECTION_LOST (pendingRequests s))
  | None => removeSession sm sid = (false, sm, [])
  end.
Proof.
  unfold getSession, removeSession. rewrite getSession_in_locate.
  destruct (locate sid (sessions sm)) as [[[[k b] i] s]|]; simpl; [|done].
  case_bool_decide; eauto.
Qed.

Lemma wf_absent_empty sm k :
  wf sm → getSessions sm k = [] → bucket_absent sm k.
Proof.
  intros [_ Hne _ _]. unfold getSessions, bucket_absent.
  rewrite has_false.
  destruct (InsertionMap.get k (sessions sm)) as [b|] eqn:Hget; [|done].
  simpl. intros ->. apply get_Some_elem in Hget.
  rewrite Forall_forall in Hne. by apply Hne in Hget.
Qed.

(** What [removeSession] does to a well-formed registry. *)
Lemma removeSession_wf sm sid :
  wf sm →
  let sm' := (removeSession sm sid).1.2 in
  wf sm'
  ∧ config sm' = config sm
  ∧ (∀ k, getSessions sm' k
          = filter (λ x, sessionId x ≠ sid) (getSessions sm k))
  ∧ (∀ k, getSessions sm k ≠ [] → getSessions sm' k = [] →
          roundRobinCounters sm' !! k = None)
  ∧ (∀ k, getSessions sm' k ≠ [] ∨ getSessions sm k = [] →
          roundRobinCounters sm' !! k = roundRobinCounters sm !! k).
Proof.
  intros Hwf. unfold removeSession.
  destruct (locate sid (sessions sm)) as [[[[k0 b] i] s]|] eqn:Hloc; simpl.
  2:{ split; [done|]. split; [done|]. split; [|done].
      intros k. symmetry. apply filter_other_id.
      apply locate_None in Hloc. intros (x & -> & Hx)%list_elem_of_fmap.
      apply Hloc. apply list_elem_of_fmap_2. by eapply getSessions_elem. }
  apply locate_split in Hloc as (pre & post & Heq & Hpre & Hf & Hsp & _).
  apply findSession_Some in Hf as [Hi Hid].
  destruct Hwf as [Hk Hne Hids Hown]. unfold allSessions in Hids.
  rewrite Heq in Hk, Hne, Hids, Hown.
  rewrite fmap_app, fmap_cons in Hk. simpl in Hk.
  apply NoDup_app in Hk as (Hkpre & Hk0 & [Hk0post Hkpost]%NoDup_cons).
  apply Forall_app in Hne as [Hnepre [_ Hnepost]%Forall_cons].
  apply Forall_app in Hown as [Hownpre [Hownb Hownpost]%Forall_cons].
  rewrite allSessions_split, !fmap_app in Hids.
  apply NoDup_app in Hids as (Hidpre & Hidx & Hids).
  apply NoDup_app in Hids as (Hidb & Hidbpost & Hidpost).
  assert (k0 ∉ pre.*1) as Hk0pre.
  { intros Hin. apply (Hk0 _ Hin). left. }
  assert (sid ∈ sessionId <$> b) as Hsidb.
  { rewrite <-Hid. apply list_elem_of_fmap_2. by eapply list_elem_of_lookup_2. }
  assert (sid ∉ sessionId <$> (post ≫= snd)) as Hpost by auto.
  assert (∀ k, k ≠ k0 →
    filter (λ x, sessionId x ≠ sid)
           (default [] (InsertionMap.get k (pre ++ post)))
    = default [] (InsertionMap.get k (pre ++ post))) as Hother.
  { intros k Hkne. apply filter_other_id.
    destruct (InsertionMap.get k (pre ++ post)) as [b'|] eqn:Hget; simpl;
      [|apply not_elem_of_nil].
    apply get_Some_elem, elem_of_app in Hget.
    intros (x & -> & Hx)%list_elem_of_fmap.
    destruct Hget as [Hin|Hin]; [apply Hpre|apply Hpost];
      apply list_elem_of_fmap_2, list_elem_of_bind; by exists (k, b'). }
  assert (filter (λ x, sessionId x ≠ sid) b = base.delete i b) as Hfb.
  { rewrite <-Hid. by apply filter_id_delete. }
  unfold getSessions. rewrite Heq in Hsp |- *.
  case_bool_decide as Hlen; simpl; rewrite Hsp.
  - (* the bucket became empty and is dropped *)
    apply nil_length_inv in Hlen.
    rewrite delete_app_here by done.
    split; [|split; [done|split; [|split]]].
    + split; simpl.
      * rewrite fmap_app. apply NoDup_app. repeat split; try done.
        intros x Hx Hx'. apply (Hk0 _ Hx). by right.
      * by apply Forall_app.
      * unfold allSessions. simpl. rewrite bind_app, fmap_app.
        apply NoDup_app. repeat split; try done.
        intros x Hx Hx'. apply (Hidx _ Hx). apply elem_of_app. by right.
      * by apply Forall_app.
    + intros k. destruct (decide (k = k0)) as [->|Hkne].
      * rewrite get_app_here by done. simpl. rewrite Hfb, Hlen.
        assert (InsertionMap.get k0 (pre ++ post) = None) as ->; [|done].
        apply get_None_keys. rewrite fmap_app, not_elem_of_app. done.
      * rewrite (get_app_other k k0) by done. by rewrite Hother.
    + intros k Hk1 Hk2. destruct (decide (k = k0)) as [->|Hkne].
      * apply lookup_delete_eq.
      * rewrite (get_app_other k k0) in Hk1 by done. done.
    + intros k [Hk1|Hk1]; destruct (decide (k = k0)) as [->|Hkne].
      * destruct Hk1.
        assert (InsertionMap.get k0 (pre ++ post) = None) as ->; [|done].
        apply get_None_keys. rewrite fmap_app, not_elem_of_app. done.
      * by apply lookup_delete_ne.
      * rewrite get_app_here in Hk1 by done. simpl in Hk1.
        rewrite Hk1 in Hi. done.
      * by apply lookup_delete_ne.
  - (* the bucket keeps other sessions *)
    split; [|split; [done|split; [|split]]].
    + split; simpl.
      * rewrite fmap_app, fmap_cons. simpl. apply NoDup_app.
        repeat split; try done. by apply NoDup_cons.
      * apply Forall_app. split; [done|]. constructor; [|done].
        simpl. intros E. by rewrite E in Hlen.
      * unfold allSessions. simpl. rewrite allSessions_split, !fmap_app.
        assert (sessionId <$> base.delete i b `sublist_of` sessionId <$> b)
          as Hsub by apply fmap_sublist, sublist_delete.
        apply NoDup_app. repeat split; try done.
        -- intros x Hx Hx'. apply (Hidx _ Hx).
           apply elem_of_app in Hx' as [Hx'|Hx']; apply elem_of_app;
             [left|by right].
           by eapply elem_of_sublist.
        -- apply NoDup_app. repeat split; try done.
           ++ exact (sublist_NoDup _ _ Hidb Hsub).
           ++ intros x Hx. apply Hidbpost. by eapply elem_of_sublist.
      * apply Forall_app. split; [done|]. constructor; [|done].
        simpl. by apply Forall_delete.
    + intros k. destruct (decide (k = k0)) as [->|Hkne].
      * rewrite !get_app_here by done. simpl. by rewrite Hfb.
      * rewrite !(get_app_other k k0) by done. by rewrite Hother.
    + intros k Hk1 Hk2. destruct (decide (k = k0)) as [->|Hkne].
      * rewrite get_app_here in Hk2 by done. simpl in Hk2.
        by rewrite Hk2 in Hlen.
      * rewrite !(get_app_other k k0) in Hk1, Hk2 by done. done.
    + done.
Qed.

Lemma removeSession_gone sm sid :
  wf sm → getSession (removeSession sm sid).1.2 sid = None.
Proof.
  intros Hwf.
  destruct (removeSession_wf sm sid Hwf) as (Hwf' & _ & Hget & _).
  apply getSession_None. intros (x & Hx & Hin)%list_elem_of_fmap.
  apply (wf_allSessions_bucket _ _ Hwf') in Hin.
  rewrite Hget in Hin. by apply list_elem_of_filter in Hin as [Hne _].
Qed.

End Removal.
Section RemovalSpec.
Import JS Utils SessionManager Spec.
Implicit Types (sm : SessionManager.t).

Lemma rejectAll_elem err (pending : list (string * PendingRequest)) rid p :
  (rid, p) ∈ pending →
  ClearTimeout (timeoutId p) ∈ rejectAll err pending
  ∧ Reject (reject p) err ∈ rejectAll err pending.
Proof.
  intros Hin. unfold rejectAll.
  split; apply list_elem_of_In, in_flat_map; exists (rid, p);
    (split; [by apply list_elem_of_In|]); simpl; auto.
Qed.

Lemma wf_three_active : wf three_active.
Proof.
  split; vm_compute.
  - repeat constructor. set_solver.
  - by repeat constructor.
  - repeat constructor; set_solver.
  - by repeat constructor.
Qed.

Lemma wf_busy : wf busy.
Proof.
  split; vm_compute.
  - repeat constructor. set_solver.
  - by repeat constructor.
  - repeat constructor; set_solver.
  - by repeat constructor.
Qed.

(** C6: [removeSession] on a registered session returns [true]; it calls
    [clearTimeout] on the timer of every pending request the session owns
    and rejects each with the "connection lost" error, takes the session
    out of its credential's collection (leaving every other session in
    place), and, when that collection becomes empty, removes the
    credential's entry together with its round-robin cursor.  On an id
    that is not registered it returns [false], changes nothing and calls
    nothing. *)
Theorem removeSession_spec (sm : SessionManager.t) (sid : string) :
  wf sm →
  (∀ s, getSession sm sid = Some s →
     ∃ sm',
       removeSession sm sid
         = (true, sm', rejectAll CONNECTION_LOST (pendingRequests s))
       ∧ message CONNECTION_LOST = "CONNECTION_LOST: WebSocket connection lost"
       ∧ (∀ rid p, (rid, p) ∈ pendingRequests s →
            ClearTimeout (timeoutId p)
              ∈ rejectAll CONNECTION_LOST (pendingRequests s)
            ∧ Reject (reject p) CONNECTION_LOST
              ∈ rejectAll CONNECTION_LOST (pendingRequests s))
       ∧ s ∈ getSessions sm (apiKey s)
       ∧ (∀ k, getSessions sm' k
               = filter (λ x, sessionId x ≠ sid) (getSessions sm k))
       ∧ getSession sm' sid = None
       ∧ (getSessions sm' (apiKey s) = [] →
            bucket_absent sm' (apiKey s)
            ∧ roundRobinCounters sm' !! apiKey s = None)
       ∧ (∀ k, getSessions sm' k ≠ [] ∨ k ≠ apiKey s →
            roundRobinCounters sm' !! k = roundRobinCounters sm !! k)
       ∧ wf sm')
  ∧ (getSession sm sid = None → removeSession sm sid = (false, sm, [])).
Proof.
  intros Hwf.
  pose proof (removeSession_result sm sid) as Hres.
  pose proof (removeSession_wf sm sid Hwf) as Hrem.
  split.
  - intros s Hs. rewrite Hs in Hres. destruct Hres as [sm' Hres].
    rewrite Hres in Hrem. simpl in Hrem.
    destruct Hrem as (Hwf' & Hcfg & Hget & Hdel & Hkeep).
    apply getSession_elem in Hs as [Hs Hid].
    pose proof (wf_allSessions_bucket _ _ Hwf Hs) as Hbucket.
    exists sm'. split_and!; try done.
    + intros rid p Hp. by eapply rejectAll_elem.
    + apply getSession_None. intros (x & Hx & Hin)%list_elem_of_fmap.
      apply (wf_allSessions_bucket _ _ Hwf') in Hin.
      rewrite Hget in Hin. apply list_elem_of_filter in Hin as [Hne _]. done.
    + intros Hempty. split; [by apply wf_absent_empty|].
      apply Hdel; [|done]. intros E. rewrite E in Hbucket.
      by apply elem_of_nil in Hbucket.
    + intros k [Hk|Hk]; apply Hkeep; [by left|].
      destruct (getSessions sm k) as [|x b] eqn:E; [by right|left].
      rewrite Hget, E. rewrite filter_other_id; [done|].
      intros (y & Hy & Hin)%list_elem_of_fmap.
      assert (y = s).
      { eapply (NoDup_fmap_inj sessionId); [apply Hwf| |done|congruence].
        eapply getSessions_elem. by rewrite E. }
      subst y. apply Hk. symmetry.
      apply (wf_owner_getSessions sm k s Hwf). by rewrite E.
  - intros Hnone. by rewrite Hnone in Hres.
Qed.

(** Removing [S1] while it has a command in flight. *)
Lemma removeSession_spec_witness :
  ∃ sm', removeSession busy "S1"
         = (true, sm', [ClearTimeout 3; Reject 7 CONNECTION_LOST])
       ∧ getSession sm' "S1" = None
       ∧ sessionId <$> getSessions sm' "K" = ["S2"; "S3"].
Proof.
  destruct (getSession busy "S1") as [s|] eqn:Hs; [|by vm_compute in Hs].
  destruct (proj1 (removeSession_spec busy "S1" wf_busy) s Hs)
    as (sm' & Hrem & _ & _ & _ & Hget & Hnone & _).
  exists sm'. split; [|split; [done|]].
  - rewrite Hrem. vm_compute in Hs. by injection Hs as <-.
  - by rewrite Hget.
Defined.

End RemovalSpec.
Section LivenessSweep.
Import JS Utils SessionManager Spec.
Implicit Types (sm : SessionManager.t).

Lemma filter_ext_elem {A} (P Q : A → Prop)
    `{∀ x, Decision (P x)} `{∀ x, Decision (Q x)} (l : list A) :
  (∀ x, x ∈ l → P x ↔ Q x) → filter P l = filter Q l.
Proof.
  induction l as [|x l IH]; intros Hext; [done|].
  rewrite !filter_cons.
  rewrite IH by (intros y Hy; apply Hext; by right).
  destruct (decide (P x)) as [HP|HP], (decide (Q x)) as [HQ|HQ]; try done.
  - destruct HQ. apply Hext; [left|done].
  - destruct HP. apply Hext; [left|done].
Qed.

(** The first loop of the sweep reads the ids off the sessions that are
    stale when the tick starts. *)
Lemma staleSessionIds_snapshot sm now :
  staleSessionIds sm now
  = sessionId <$> filter (λ s, isStale sm now s = true) (allSessions sm).
Proof.
  unfold staleSessionIds, allSessions.
  induction (sessions sm) as [|[k b] entries IH]; [done|].
  simpl. by rewrite IH, filter_app, fmap_app.
Qed.

Lemma evict_all (ss : list Session) sm log :
  wf sm → NoDup (sessionId <$> ss) → (∀ s, s ∈ ss → s ∈ allSessions sm) →
  let r := foldl (evict true) (sm, log) (sessionId <$> ss) in
  wf r.1
  ∧ config r.1 = config sm
  ∧ r.2 = log ++ (ss ≫= evicted)
  ∧ ∀ k, getSessions r.1 k
         = filter (λ x, sessionId x ∉ sessionId <$> ss) (getSessions sm k).
Proof.
  revert sm log. induction ss as [|s ss IH]; intros sm log Hwf Hnd Hin.
  { simpl. split_and!; try done.
    - by rewrite app_nil_r.
    - intros k. symmetry. apply filter_all, Forall_forall.
      intros x _. apply not_elem_of_nil. }
  rewrite fmap_cons in Hnd. apply NoDup_cons in Hnd as [Hs Hnd].
  rewrite fmap_cons. simpl foldl. unfold evict at 2. simpl.
  rewrite (wf_getSession sm s Hwf) by (apply Hin; left).
  pose proof (removeSession_result sm (sessionId s)) as Hres.
  rewrite (wf_getSession sm s Hwf) in Hres by (apply Hin; left).
  destruct Hres as [sm1 Hres].
  pose proof (removeSession_wf sm (sessionId s) Hwf) as Hrem.
  rewrite Hres in Hrem |- *. simpl in Hrem.
  change ([OnStaleSession s] ++ ?l) with (evicted s).
  destruct Hrem as (Hwf1 & Hcfg1 & Hget1 & _).
  specialize (IH sm1 (log ++ evicted s) Hwf1 Hnd).
  destruct IH as (Hwf' & Hcfg' & Hlog' & Hget').
  { intros s' Hs'. apply (getSessions_elem _ (apiKey s')).
    rewrite Hget1. apply list_elem_of_filter. split.
    - intros E. apply Hs. rewrite <-E. by apply list_elem_of_fmap_2.
    - apply wf_allSessions_bucket; [done|]. apply Hin. by right. }
  split_and!; try done.
  - congruence.
  - rewrite Hlog', <-app_assoc. done.
  - intros k. rewrite Hget', Hget1, list_filter_filter.
    apply list_filter_iff. intros x. rewrite not_elem_of_cons. tauto.
Qed.

(** C7: on a tick of the liveness sweep, the sessions whose last heartbeat
    is older than the stale threshold (60 s by default, twice the default
    heartbeat interval) are exactly the ones evicted.  The list of stale
    ids is fixed before anything is removed; then, for each stale session
    in scan order, the hook is called with the session and [removeSession]
    clears the timers of its pending requests and rejects them with the
    "connection lost" error.  Afterwards no stale session is registered or
    listed by [getSessionInfo], and every other session is still in its
    bucket. *)
Theorem heartbeatTick_evicts_stale (sm : SessionManager.t) (now : Z) :
  wf sm →
  let stale := filter (λ s, isStale sm now s = true) (allSessions sm) in
  let sm' := (heartbeatTick true sm now).1 in
  let log := (heartbeatTick true sm now).2 in
  (∀ s, isStale sm now s = true
        ↔ (heartbeatTimeout (config sm) < now - lastHeartbeat s)%Z)
  ∧ heartbeatTimeout (config (SessionManager.new defaults)) = 60000%Z
  ∧ (heartbeatTimeout (config (SessionManager.new defaults))
     = 2 * heartbeatInterval (config (SessionManager.new defaults)))%Z
  ∧ staleSessionIds sm now = sessionId <$> stale
  ∧ log = stale ≫= evicted
  ∧ (∀ k, getSessions sm' k
          = filter (λ s, isStale sm now s ≠ true) (getSessions sm k))
  ∧ (∀ s, s ∈ stale →
       getSession sm' (sessionId s) = None
       ∧ ∀ k, sessionId s ∉ info_sessionId <$> getSessionInfo sm' k)
  ∧ wf sm'.
Proof.
  intros Hwf stale sm' log.
  assert (NoDup (sessionId <$> stale)) as Hnd.
  { eapply sublist_NoDup; [apply (wf_ids _ Hwf)|].
    apply fmap_sublist, sublist_filter. }
  assert (∀ s, s ∈ stale → s ∈ allSessions sm) as Hin.
  { intros s Hs. by apply list_elem_of_filter in Hs as [_ Hs]. }
  destruct (evict_all stale sm [] Hwf Hnd Hin) as (Hwf' & Hcfg & Hlog & Hget).
  unfold sm', log, heartbeatTick.
  rewrite staleSessionIds_snapshot. fold stale.
  assert (∀ k, getSessions
                 (foldl (evict true) (sm, []) (sessionId <$> stale)).1 k
               = filter (λ s, isStale sm now s ≠ true) (getSessions sm k))
    as Hget'.
  { intros k. rewrite Hget. apply filter_ext_elem. intros x Hx.
    apply getSessions_elem in Hx. split.
    - intros Hnot Hst. apply Hnot, list_elem_of_fmap_2.
      by apply list_elem_of_filter.
    - intros Hnot (y & Hy & Hin')%list_elem_of_fmap.
      apply list_elem_of_filter in Hin' as [Hst Hin'].
      assert (x = y) as ->; [|done].
      by eapply (NoDup_fmap_inj sessionId); [apply Hwf|..]. }
  split_and!; try done.
  - intros s. unfold isStale. apply bool_decide_eq_true.
  - intros s Hs. apply list_elem_of_filter in Hs as [Hst Hs].
    assert (∀ k, s ∉ getSessions
                       (foldl (evict true) (sm, []) (sessionId <$> stale)).1 k)
      as Hgone.
    { intros k. rewrite Hget'. intros [? _]%list_elem_of_filter. done. }
    split.
    + apply getSession_None. intros (x & Hx & Hin')%list_elem_of_fmap.
      apply (wf_allSessions_bucket _ _ Hwf') in Hin'.
      pose proof Hin' as Hin''.
      rewrite Hget' in Hin''. apply list_elem_of_filter in Hin'' as [Hns Hin''].
      apply getSessions_elem in Hin''.
      assert (s = x) as ->; [|done].
      by eapply (NoDup_fmap_inj sessionId); [apply Hwf|..].
    + intros k. unfold getSessionInfo. rewrite <-list_fmap_compose.
      intros (x & Hx & Hin')%list_elem_of_fmap. simpl in Hx.
      rewrite Hget' in Hin'. apply list_elem_of_filter in Hin' as [Hns Hin'].
      apply getSessions_elem in Hin'.
      assert (s = x) as ->; [|done].
      by eapply (NoDup_fmap_inj sessionId); [apply Hwf|..].
Qed.

(** At time 60002 only [S1] (last heartbeat at 1) is stale; it is evicted
    together with its pending command. *)
Lemma heartbeatTick_evicts_stale_witness :
  ∃ s, sessionId s = "S1"
    ∧ (heartbeatTick true busy 60002).2
      = [OnStaleSession s; ClearTimeout 3; Reject 7 CONNECTION_LOST]
    ∧ info_sessionId <$> getSessionInfo (heartbeatTick true busy 60002).1 "K"
      = ["S2"; "S3"].
Proof.
  destruct (heartbeatTick_evicts_stale busy 60002 wf_busy)
    as (_ & _ & _ & _ & Hlog & Hget & _).
  destruct (getSession busy "S1") as [s|] eqn:Hs; [|by vm_compute in Hs].
  exists s. split; [by apply getSession_elem in Hs as [_ ?]|]. split.
  - rewrite Hlog. vm_compute in Hs. by injection Hs as <-.
  - unfold getSessionInfo. by rewrite Hget.
Defined.

End LivenessSweep.
Section Correlation.
Import JS Utils SessionManager Spec.
Implicit Types (sm : SessionManager.t) (entries : list (string * list Session)).


Lemma findSession_alter sid (f : Session → Session) (ss : list Session) i s :
  (∀ x, sessionId (f x) = sessionId x) →
  findSession sid ss = Some (i, s) →
  findSession sid (alter f i ss) = Some (i, f s).
Proof.
  unfold findSession. intros Hf (Hi & Hs & Hfirst)%list_find_Some.
  apply list_find_Some. split_and!.
  - by rewrite list_lookup_alter_eq, Hi.
  - by rewrite Hf.
  - intros j y Hj Hlt. rewrite list_lookup_alter_ne in Hj by lia. eauto.
Qed.

(** A mutation through the reference [getSession] returned is seen by the
    next [getSession]. *)
Lemma getSession_mutate sm sid (f : Session → Session) :
  (∀ x, sessionId (f x) = sessionId x) →
  getSession (mutateSession sm sid f) sid = f <$> getSession sm sid.
Proof.
  intros Hf. unfold getSession, mutateSession. simpl.
  induction (sessions sm) as [|[k ss] entries IH]; simpl; [done|].
  destruct (findSession sid ss) as [[i s]|] eqn:Hfind; simpl.
  - by rewrite (findSession_alter _ _ _ _ _ Hf Hfind).
  - by rewrite Hfind.
Qed.

Lemma get_delete_same {V} rid (m : list (string * V)) :
  InsertionMap.get rid (InsertionMap.delete rid m) = None.
Proof.
  apply get_None_keys. unfold InsertionMap.delete.
  intros (e & -> & He)%list_elem_of_fmap.
  by apply list_elem_of_filter in He as [? _].
Qed.

Lemma resolvePendingRequest_absent sm sid rid r :
  (∀ s, getSession sm sid = Some s →
        InsertionMap.get rid (pendingRequests s) = None) →
  resolvePendingRequest sm sid rid r = (false, sm, []).
Proof.
  intros Habs. unfold resolvePendingRequest.
  destruct (getSession sm sid) as [s|]; [|done].
  by rewrite (Habs s eq_refl).
Qed.

(** C2: resolving a pending request is at-most-once.  The call that finds
    the entry clears its timer, resolves the completion handle with the
    result, removes the entry and returns [true]; a second call with the
    same session id and request id -- after that resolution (be it an
    acknowledgment or the timeout callback's own call), or after the
    session was destroyed -- returns [false], calls nothing and leaves the
    registry unchanged. *)
Theorem resolvePendingRequest_at_most_once
    (sm : SessionManager.t) (sid requestId : string)
    (result1 result2 : option Protocol.MessageData) :
  wf sm →
  let first := resolvePendingRequest sm sid requestId result1 in
  let sm1 := first.1.2 in
  (∀ s p, getSession sm sid = Some s →
     InsertionMap.get requestId (pendingRequests s) = Some p →
     first.1.1 = true
     ∧ first.2 = [ClearTimeout (timeoutId p); Resolve (resolve p) result1]
     ∧ getSession sm1 sid
       = Some (set_pendingRequests
                 (InsertionMap.delete requestId (pendingRequests s)) s)
     ∧ InsertionMap.has requestId
         (InsertionMap.delete requestId (pendingRequests s)) = false)
  ∧ (first.1.1 = false → first = (false, sm, []))
  ∧ resolvePendingRequest sm1 sid requestId result2 = (false, sm1, [])
  ∧ resolvePendingRequest (removeSession sm sid).1.2 sid requestId result2
    = (false, (removeSession sm sid).1.2, []).
Proof.
  intros Hwf first sm1. split_and!.
  - intros s p Hs Hp. unfold sm1, first, resolvePendingRequest.
    rewrite Hs, Hp. simpl. split_and!; try done.
    + by rewrite getSession_mutate, Hs.
    + apply has_false, get_delete_same.
  - unfold first, resolvePendingRequest.
    destruct (getSession sm sid) as [s|]; [|done].
    by destruct (InsertionMap.get requestId (pendingRequests s)).
  - apply resolvePendingRequest_absent. intros s1 Hs1.
    unfold sm1, first, resolvePendingRequest in Hs1.
    destruct (getSession sm sid) as [s|] eqn:Hs; simpl in Hs1.
    + destruct (InsertionMap.get requestId (pendingRequests s)) as [p|] eqn:Hp;
        simpl in Hs1.
      * rewrite getSession_mutate, Hs in Hs1 by done.
        injection Hs1 as <-. simpl. apply get_delete_same.
      * congruence.
    + congruence.
  - apply resolvePendingRequest_absent. intros s Hs.
    by rewrite removeSession_gone in Hs.
Qed.

(** Resolving the command in flight on [S1] twice. *)
Lemma resolvePendingRequest_at_most_once_witness :
  let first := resolvePendingRequest busy "S1" "r1" None in
  first.1.1 = true
  ∧ first.2 = [ClearTimeout 3; Resolve 7 None]
  ∧ resolvePendingRequest first.1.2 "S1" "r1" None = (false, first.1.2, []).
Proof.
  intros first.
  destruct (resolvePendingRequest_at_most_once busy "S1" "r1" None None wf_busy)
    as (Hfound & _ & Hsecond & _).
  destruct (getSession busy "S1") as [s|] eqn:Hs; [|by vm_compute in Hs].
  destruct (InsertionMap.get "r1" (pendingRequests s)) as [p|] eqn:Hp.
  2:{ vm_compute in Hs. injection Hs as <-. by vm_compute in Hp. }
  destruct (Hfound s p eq_refl Hp) as (Htrue & Heff & _).
  split; [exact Htrue|]. split; [|exact Hsecond].
  fold first in Heff. rewrite Heff.
  vm_compute in Hs. injection Hs as <-. vm_compute in Hp.
  by injection Hp as <-.
Defined.

End Correlation.
Section Reachable.
Import JS Utils SessionManager Spec.
Implicit Types (sm : SessionManager.t) (entries : list (string * list Session)).

Lemma wf_new (config : ConfigInput) : wf (SessionManager.new config).
Proof. split; simpl; by constructor. Qed.

Lemma update_split {V} k (f : V → V) (m : list (string * V)) b :
  InsertionMap.get k m = Some b →
  ∃ pre post, m = pre ++ (k, b) :: post ∧ (k ∉ pre.*1)
    ∧ InsertionMap.update k f m = pre ++ (k, f b) :: post.
Proof.
  induction m as [|[k' v] m IH]; simpl; [done|].
  case_bool_decide as Hk.
  - intros [= ->]. subst k'. exists [], m. split_and!; try done.
    apply not_elem_of_nil.
  - intros (pre & post & -> & Hpre & Hup)%IH.
    exists ((k', v) :: pre), post. split_and!; try done.
    + simpl. rewrite not_elem_of_cons. done.
    + simpl. by rewrite Hup.
Qed.

(** Registering under a fresh id keeps the registry well-formed. *)
Lemma addSession_wf sm uuid now k ws md s sm' :
  wf sm → uuid ∉ (sessionId <$> allSessions sm) →
  addSession sm uuid now k ws md = inr (s, sm') → wf sm'.
Proof.
  intros [Hk Hne Hids Hown] Hfresh Hadd.
  apply addSession_sessions in Hadd
    as (_ & _ & Hid & Hkey & _ & [[Hnone Heq] | [[b Hb] Heq]]).
  - split; unfold allSessions; rewrite Heq.
    + rewrite fmap_app. simpl. apply NoDup_app. split_and!; try done.
      * intros x Hx ->%list_elem_of_singleton.
        by apply get_None_keys in Hnone.
      * apply NoDup_singleton.
    + apply Forall_app. split; [done|]. by repeat constructor.
    + rewrite bind_app, fmap_app. simpl. apply NoDup_app. split_and!; try done.
      * intros x Hx ->%list_elem_of_singleton. by rewrite Hid in Hx.
      * apply NoDup_singleton.
    + apply Forall_app. split; [done|]. by repeat constructor.
  - destruct (update_split k (λ bucket, bucket ++ [s]) _ _ Hb)
      as (pre & post & Hsm & Hpre & Hup).
    unfold allSessions in *. rewrite Hsm in Hk, Hne, Hids, Hown, Hfresh.
    rewrite allSessions_split, !fmap_app in Hids, Hfresh.
    apply Forall_app in Hne as [Hnepre [_ Hnepost]%Forall_cons].
    apply Forall_app in Hown as [Hownpre [Hownb Hownpost]%Forall_cons].
    split; unfold allSessions; rewrite Heq, Hup.
    + by rewrite fmap_app, fmap_cons in Hk |- *.
    + apply Forall_app. split; [done|]. constructor; [|done].
      simpl. by destruct b.
    + rewrite allSessions_split, !fmap_app. simpl.
      eapply (NoDup_Permutation_proper
                (sessionId s :: (sessionId <$> pre ≫= snd)
                   ++ (sessionId <$> b) ++ (sessionId <$> post ≫= snd))).
      * rewrite <-!Permutation_middle, app_nil_r. simpl.
        apply Permutation_middle.
      * apply NoDup_cons. split; [by rewrite Hid|done].
    + apply Forall_app. split; [done|]. constructor; [|done].
      simpl in *. apply Forall_app. split; [done|]. by repeat constructor.
Qed.

(** Mutating a session in place keeps the registry well-formed as long as
    the id and the credential are left alone. *)
Lemma mutateSession_wf sm sid (f : Session → Session) :
  (∀ x, sessionId (f x) = sessionId x) → (∀ x, apiKey (f x) = apiKey x) →
  wf sm → wf (mutateSession sm sid f).
Proof.
  intros Hfid Hfkey [Hk Hne Hids Hown]. unfold mutateSession.
  destruct (locate sid (sessions sm)) as [[[[k b] i] s]|] eqn:Hloc.
  2:{ apply locate_None_fixed in Hloc as [_ Hmu]. split; simpl;
      by rewrite Hmu. }
  apply locate_split in Hloc as (pre & post & Hsm & _ & _ & _ & Hmu).
  unfold allSessions in *. rewrite Hsm in Hk, Hne, Hids, Hown.
  apply Forall_app in Hne as [Hnepre [Hneb Hnepost]%Forall_cons].
  apply Forall_app in Hown as [Hownpre [Hownb Hownpost]%Forall_cons].
  assert (sessionId <$> alter f i b = sessionId <$> b) as Hsame.
  { clear -Hfid. revert i.
    induction b as [|x b IH]; intros [|i]; csimpl; try done.
    - by rewrite Hfid.
    - by rewrite IH. }
  split; unfold allSessions; simpl; rewrite Hmu.
  - by rewrite fmap_app, fmap_cons in Hk |- *.
  - apply Forall_app. split; [done|]. constructor; [|done].
    simpl in *. intros E. apply Hneb.
    apply nil_length_inv. by rewrite <-(length_alter f b i), E.
  - rewrite allSessions_split, !fmap_app in Hids |- *. by rewrite Hsame.
  - apply Forall_app. split; [done|]. constructor; [|done].
    simpl in *. apply Forall_alter; [done|]. intros x Hx. by rewrite Hfkey.
Qed.

(** Hence every registry built by registrations under fresh ids and by
    removals is well-formed. *)
Lemma apply_wf sm (op : RegistryOp) :
  wf sm →
  (∀ uuid now k ws md, op = DoRegister uuid now k ws md →
     uuid ∉ (sessionId <$> allSessions sm)) →
  wf (apply sm op).
Proof.
  intros Hwf Hfresh. destruct op as [uuid now k ws md | sid]; simpl.
  - destruct (addSession sm uuid now k ws md) as [|[s sm']] eqn:Hadd; [done|].
    eapply addSession_wf; [done| |done]. by eapply Hfresh.
  - by destruct (removeSession_wf sm sid Hwf) as [? _].
Qed.

End Reachable.
Section Facade.
Import JS Utils Spec.
Import Gateway.

(** C10: the facade's [getActiveSessions] returns [getSessionInfo]: one
    snapshot entry, in order, for every session registered under the
    credential, whatever its [deviceActive] flag -- a session that is
    registered but not active is listed with the flag [false] -- and the
    call leaves the gateway, hence the registry and the round-robin
    cursors, exactly as it was. *)
Theorem getActiveSessions_lists_every_session
    (g : Gateway.t) (apiKey : string) :
  let sm := sessionManager g in
  let infos := (getActiveSessions apiKey g).1 in
  (getActiveSessions apiKey g).2 = g
  ∧ infos = SessionManager.sessionInfo <$> SessionManager.getSessions sm apiKey
  ∧ length infos = length (SessionManager.getSessions sm apiKey)
  ∧ (∀ i s, SessionManager.getSessions sm apiKey !! i = Some s →
       ∃ info, infos !! i = Some info
         ∧ SessionManager.info_sessionId info = SessionManager.sessionId s
         ∧ SessionManager.info_deviceActive info = SessionManager.deviceActive s)
  ∧ SessionManager.getActiveSessions (sessionManager authenticatedOnly) "K" = []
  ∧ (λ i, (SessionManager.info_sessionId i, SessionManager.info_deviceActive i))
      <$> (getActiveSessions "K" authenticatedOnly).1 = [("S1", false)].
Proof.
  intros sm infos. split_and!; try done.
  - unfold infos. simpl. unfold SessionManager.getSessionInfo.
    by rewrite length_fmap.
  - intros i s Hs. exists (SessionManager.sessionInfo s). split; [|done].
    unfold infos. simpl. fold sm.
    unfold SessionManager.getSessionInfo. by rewrite list_lookup_fmap, Hs.
Qed.

(** The freshly authenticated session [S1] is listed although inactive. *)
Lemma getActiveSessions_lists_every_session_witness :
  ∃ info, (getActiveSessions "K" authenticatedOnly).1 !! 0 = Some info
    ∧ SessionManager.info_sessionId info = "S1"
    ∧ SessionManager.info_deviceActive info = false.
Proof.
  destruct (SessionManager.getSessions (sessionManager authenticatedOnly) "K"
              !! 0) as [s|] eqn:Hs; [|by vm_compute in Hs].
  destruct (getActiveSessions_lists_every_session authenticatedOnly "K")
    as (_ & _ & _ & Hall & _).
  destruct (Hall 0 s Hs) as (info & Hinfo & Hid & Hact).
  exists info. split; [done|].
  vm_compute in Hs. injection Hs as <-. by rewrite Hid, Hact.
Defined.

(** ** Envelopes before authentication *)

Lemma handleExtensionMessage_valid now message :
  let r := Protocol.handleExtensionMessage now message in
  Protocol.valid (Protocol.result r) = true →
  ∃ d, Protocol.data (Protocol.result r) = Some d.
Proof.
  unfold Protocol.handleExtensionMessage.
  repeat match goal with
  | |- context [if ?b then _ else _] => destruct b
  end; simpl;
  unfold Protocol.validateAuthMessage, Protocol.validateStatusMessage,
    Protocol.validateMessageResult, Protocol.validateHeartbeatMessage;
  repeat match goal with
  | |- context [if ?b then _ else _] => destruct b
  | |- context [match ?v with _ => _ end] => destruct v
  end; simpl; try done; eauto.
Qed.

Lemma _sendError_unfold g ws sock code message :
  sockets g !! ws = Some sock →
  _sendError ws code message g
  = if bool_decide (readyState sock = 1)
    then wsSend ws (ErrorFrame code message) g else ((), g).
Proof.
  intros Hs. unfold _sendError, isOpen, gets, mbind, M_bind. rewrite Hs.
  by destruct (bool_decide _).
Qed.

Lemma wsSend_untouched ws frame g :
  sessionManager (wsSend ws frame g).2 = sessionManager g
  ∧ promises (wsSend ws frame g).2 = promises g
  ∧ timers (wsSend ws frame g).2 = timers g
  ∧ messageLog (wsSend ws frame g).2 = messageLog g.
Proof. done. Qed.

(** C8, as the specification words it, fails: a heartbeat and a
    message-result envelope arriving on an open, unauthenticated socket are
    dropped without any reply. *)
Lemma unauthenticated_heartbeat_unanswered :
  (readyState <$> sockets connected !! 1) = Some 1
  ∧ ((λ s, authenticated (_tempData s)) <$> sockets connected !! 1) = Some false
  ∧ _handleMessage 1 (Some heartbeatEnvelope) true "S0" 5 connected
    = ((), connected)
  ∧ _handleMessage 1 (Some resultEnvelope) true "S0" 5 connected
    = ((), connected)
  ∧ (sent <$> sockets connected !! 1) = Some [].
Proof. by vm_compute. Qed.

(** C8 (amended): on a connection that has not authenticated, a valid
    [status] envelope is answered with a [NOT_AUTHENTICATED] error envelope
    (sent when the socket is open), valid [message-result] and [heartbeat]
    envelopes are dropped without a reply, and an envelope that fails
    validation (an unknown type included) is answered with a
    [VALIDATION_ERROR] error envelope; none of these changes the registry,
    a heartbeat timestamp, a pending request, a promise or a timer. *)
Theorem unauthenticated_envelopes
    (g : Gateway.t) (ws : nat) (sock : WebSocket)
    (parsed : option jsval) (message : jsval)
    (validationResult : bool) (uuid : string) (now : Z) :
  sockets g !! ws = Some sock →
  authenticated (_tempData sock) = false →
  Protocol.parseMessage parsed = Some message →
  let r := Protocol.handleExtensionMessage now message in
  let after := _handleMessage ws parsed validationResult uuid now g in
  let reply code text :=
    if bool_decide (readyState sock = 1)
    then wsSend ws (ErrorFrame code text) g else ((), g) in
  (Protocol.valid (Protocol.result r) = true → Protocol.type r = "status" →
     after = reply "NOT_AUTHENTICATED" "Not authenticated")
  ∧ (Protocol.valid (Protocol.result r) = true →
     Protocol.type r = "message-result" ∨ Protocol.type r = "heartbeat" →
     after = ((), g))
  ∧ (Protocol.valid (Protocol.result r) = false →
     after = reply "VALIDATION_ERROR"
                   (default EmptyString (Protocol.error (Protocol.result r))))
  ∧ (Protocol.type r ≠ "auth" →
     sessionManager after.2 = sessionManager g
     ∧ promises after.2 = promises g
     ∧ timers after.2 = timers g
     ∧ messageLog after.2 = messageLog g).
Proof.
  intros Hsock Hauth Hparse r after reply.
  assert (∀ d, _handleStatusMessage ws d g
               = reply "NOT_AUTHENTICATED" "Not authenticated") as Hstatus.
  { intros d. unfold _handleStatusMessage, tempData, gets, mbind, M_bind.
    rewrite Hsock. simpl. rewrite Hauth. simpl.
    by apply _sendError_unfold. }
  assert (∀ d, _handleMessageResult ws d g = ((), g)) as Hresult.
  { intros d. unfold _handleMessageResult, tempData, gets, mbind, M_bind.
    rewrite Hsock. simpl. by rewrite Hauth. }
  assert (∀ d, _handleHeartbeat ws d now g = ((), g)) as Hbeat.
  { intros d. unfold _handleHeartbeat, tempData, gets, mbind, M_bind.
    rewrite Hsock. simpl. by rewrite Hauth. }
  assert (Protocol.valid (Protocol.result r) = false →
          after = reply "VALIDATION_ERROR"
                        (default EmptyString (Protocol.error (Protocol.result r))))
    as Hinvalid.
  { intros Hv. unfold after, _handleMessage. rewrite Hparse. fold r.
    rewrite Hv. simpl. by apply _sendError_unfold. }
  assert (∀ t, Protocol.valid (Protocol.result r) = true →
            Protocol.type r = t → t ≠ "auth" →
            after = (if bool_decide (t = "status")
                     then reply "NOT_AUTHENTICATED" "Not authenticated"
                     else if bool_decide (t = "message-result") then ((), g)
                     else if bool_decide (t = "heartbeat") then ((), g)
                     else reply "UNKNOWN_MESSAGE_TYPE" "Unknown message type"))
    as Hvalid.
  { intros t Hv Ht Hne. unfold after, _handleMessage. rewrite Hparse. fold r.
    rewrite Hv. simpl.
    destruct (handleExtensionMessage_valid now message Hv) as [d Hd].
    fold r in Hd. rewrite Hd, Ht.
    rewrite (bool_decide_eq_false_2 _ Hne).
    repeat case_bool_decide; try done.
    by apply _sendError_unfold. }
  split_and!.
  - intros Hv Ht. by rewrite (Hvalid "status" Hv Ht).
  - intros Hv [Ht|Ht].
    + by rewrite (Hvalid "message-result" Hv Ht).
    + by rewrite (Hvalid "heartbeat" Hv Ht).
  - exact Hinvalid.
  - intros Hne.
    destruct (decide (Protocol.valid (Protocol.result r) = true)) as [Hv|Hv].
    + rewrite (Hvalid _ Hv eq_refl Hne). unfold reply.
      repeat case_bool_decide; try done.
    + apply not_true_is_false in Hv.
      rewrite (Hinvalid Hv). unfold reply. by case_bool_decide.
Qed.

(** A status envelope on the freshly connected socket. *)
Lemma unauthenticated_envelopes_witness :
  _handleMessage 1 (Some statusEnvelope) true "S0" 5 connected
  = wsSend 1 (ErrorFrame "NOT_AUTHENTICATED" "Not authenticated") connected.
Proof.
  destruct (sockets connected !! 1) as [sock|] eqn:Hsock;
    [|by vm_compute in Hsock].
  assert (authenticated (_tempData sock) = false) as Hauth.
  { vm_compute in Hsock. by injection Hsock as <-. }
  assert (readyState sock = 1) as Hopen.
  { vm_compute in Hsock. by injection Hsock as <-. }
  destruct (unauthenticated_envelopes connected 1 sock (Some statusEnvelope)
              statusEnvelope true "S0" 5 Hsock Hauth eq_refl) as (Hstatus & _).
  rewrite (Hstatus eq_refl eq_refl).
  by rewrite (bool_decide_eq_true_2 _ Hopen).
Defined.

End Facade.
Section Timeouts.
Import JS Utils Spec.
Import Gateway.

(** When the timer of a request fires while the request is still pending
    on a registered session, the callback's own call of
    [resolvePendingRequest] resolves the caller's promise with [null]; the
    [reject] that follows finds the promise settled. *)
Lemma fireTimeout_fulfils (g : Gateway.t) (tid : nat) (tm : Timer)
    (s : SessionManager.Session) (pr : SessionManager.PendingRequest) :
  timers g !! tid = Some tm →
  SessionManager.getSession (sessionManager g) (timer_sessionId tm) = Some s →
  InsertionMap.get (timer_requestId tm) (SessionManager.pendingRequests s)
    = Some pr →
  SessionManager.resolve pr = timer_promise tm →
  promises g !! timer_promise tm = Some Pending →
  promises (fireTimeout tid g).2 !! timer_promise tm = Some (Fulfilled None).
Proof.
  intros Htm Hs Hpr Hres Hp.
  unfold fireTimeout, gets, mbind, M_bind. rewrite Htm.
  unfold clearTimeout, modify at 1. simpl.
  unfold resolvePendingRequest, gets, mbind, M_bind. simpl.
  unfold SessionManager.resolvePendingRequest. rewrite Hs, Hpr. simpl.
  unfold mbind, M_bind, clearTimeout, settle, modify, mret, M_ret. simpl.
  rewrite Hres, Hp. simpl. rewrite lookup_insert_eq. simpl.
  by rewrite lookup_insert_eq.
Qed.

(** C1 fails on the code.  A text message is sent to the one active, open
    device of credential [K]; the device never answers and the request's
    timer fires: the caller's promise is then fulfilled with [null] instead
    of being rejected with [REQUEST_TIMEOUT].  The same happens when the
    socket is not open at send time ([CONNECTION_LOST] is never delivered),
    and a request failed because its session was removed is rejected with
    an error that carries no [code]. *)
Theorem sendMessage_timeout_fulfils_with_null :
  let call := sendMessage "K" textMessage "r1" 102 0 ready in
  outcome call = Some Pending
  ∧ timers call.2 !! 0
    = Some {| timer_sessionId := "S1"; timer_requestId := "r1";
              timer_promise := call.1 |}
  ∧ outcome (call.1, (fireTimeout 0 call.2).2) = Some (Fulfilled None)
  ∧ outcome (call.1, (fireTimeout 0 call.2).2) ≠ Some (Rejected REQUEST_TIMEOUT)
  ∧ outcome (sendMessage "K" textMessage "r1" 102 0 closing)
    = Some (Fulfilled None)
  ∧ outcome (call.1, (_handleClose 1 call.2).2)
    = Some (Rejected SessionManager.CONNECTION_LOST)
  ∧ code SessionManager.CONNECTION_LOST = None.
Proof. by vm_compute. Qed.

(** The sweep seen from the facade: [S1] has a command in flight and
    stops heartbeating; the tick at 60101 closes its socket through the
    hook, rejects the caller's promise with the registry's "connection
    lost" error and empties the credential's listing. *)
Example heartbeatTick_at_the_facade :
  let call := sendMessage "K" textMessage "r1" 102 0 ready in
  let swept := (heartbeatTick 60101 call.2).2 in
  outcome (call.1, swept) = Some (Rejected SessionManager.CONNECTION_LOST)
  ∧ (closeCalls <$> sockets swept !! 1) = Some [(1000, "Heartbeat timeout")]
  ∧ timers swept !! 0 = None
  ∧ (getActiveSessions "K" swept).1 = [].
Proof. by vm_compute. Qed.

End Timeouts.
